(** * Pod configuration for Kubernetes: [jina/peapods/pods/config.py]

    A shallow embedding of [PodConfig] (the mixin that expands the arguments
    of one Pod into a head and its shard workers and renders their
    deployments) and of [_get_base_executor_version].

    Python objects that the code copies and assigns to ([argparse.Namespace]
    objects and the dictionaries they refer to) live in a store and are named
    by their location; the code runs in a state-and-exception monad over that
    store, the registry of image tags and the process environment.  What the
    module imports from elsewhere in the package ([K8sGrpcConnectionPool],
    [kubernetes_deployment], [__version__], [__default_executor__]) is a
    parameter of the development, the class [Imports].

    The file has three parts: the embedding of the source; the vocabulary of
    the proofs and what the functions compute, stated on its own; the proofs,
    ending with the properties of the specification and their instances at a
    concrete Pod, and further properties of the module. *)

From Stdlib Require Import ZArith String Ascii List Lia DecimalString DecimalZ.
From stdpp Require Import base list strings.

Local Open Scope Z_scope.
Local Open Scope string_scope.

(** ** Strings *)

(** [str(i)] for a Python [int], also what an f-string does with it. *)
Definition str (z : Z) : string := NilZero.string_of_int (Z.to_int z).

(** [s[:-1]]: everything but the last character; the empty string stays
    empty. *)
Fixpoint drop_last (s : string) : string :=
  match s with
  | EmptyString => EmptyString
  | String c EmptyString => EmptyString
  | String c s' => String c (drop_last s')
  end.

(** [s.lower()] on ASCII text. *)
Definition lower_ascii (c : ascii) : ascii :=
  let n := nat_of_ascii c in
  if (Nat.leb 65 n && Nat.leb n 90)%bool then ascii_of_nat (n + 32) else c.

Fixpoint lower (s : string) : string :=
  match s with
  | EmptyString => EmptyString
  | String c s' => String (lower_ascii c) (lower s')
  end.

(** Truth value of a [str]: the empty string is false. *)
Definition truthy (s : string) : bool :=
  match s with EmptyString => false | _ => true end.

(** Truth value of an attribute that holds [None] or a [str]. *)
Definition is_set (o : option string) : bool :=
  match o with Some s => truthy s | None => false end.

(** [range(n)]: empty when [n <= 0]. *)
Definition range (n : Z) : list Z := map Z.of_nat (seq 0 (Z.to_nat n)).

(** [enumerate(l)]. *)
Definition enumerate {A : Type} (l : list A) : list (Z * A) :=
  combine (range (Z.of_nat (length l))) l.

(** ** Data *)

(** Modelled from the spec: [jina.enums.PeaRoleType] is imported, not defined,
    by this module; the roles are the three the specification names. *)
Inductive PeaRoleType := HEAD | WORKER | GATEWAY.

(** A value inside a dictionary: [None], an [int] or a [str]. *)
Inductive scalar := SNone | SInt (z : Z) | SStr (s : string).

(** A Python [dict] with string keys, in insertion order. *)
Definition dict := list (string * scalar).

(** A location of the store. *)
Definition loc := nat.

(** The attributes of an [argparse.Namespace] that this module reads or
    assigns.  [D] is what stands for a dictionary-valued attribute: a
    location for the object in the store, the dictionary itself in a snapshot
    of it.  An [option] that is [None] stands for an attribute that is absent
    or holds [None]; the code reads those through [getattr] with a default or
    behind [hasattr], so the two are not told apart. *)
Module Namespace.
Record t (D : Type) := mk {
  name : string;
  shards : option Z;
  replicas : option Z;
  uses : string;
  uses_before : option string;
  uses_after : option string;
  uses_with : option D;
  env : option D;
  gpus : option string;
  k8s_connection_pool : bool;
  k8s_namespace : string;
  k8s_custom_resource_dir : option string;
  port_expose : Z;
  runtime_cls : option string;
  pea_role : option PeaRoleType;
  port_in : option Z;
  shard_id : option Z;
  connection_list : option string;
  uses_before_address : option string;
  uses_after_address : option string;
  pods_addresses : option (list string);
  (* every other attribute (workspace, log_config, polling, ...) *)
  others : list (string * scalar)
}.
Arguments mk {D}.
Arguments name {D}.
Arguments shards {D}.
Arguments replicas {D}.
Arguments uses {D}.
Arguments uses_before {D}.
Arguments uses_after {D}.
Arguments uses_with {D}.
Arguments env {D}.
Arguments gpus {D}.
Arguments k8s_connection_pool {D}.
Arguments k8s_namespace {D}.
Arguments k8s_custom_resource_dir {D}.
Arguments port_expose {D}.
Arguments runtime_cls {D}.
Arguments pea_role {D}.
Arguments port_in {D}.
Arguments shard_id {D}.
Arguments connection_list {D}.
Arguments uses_before_address {D}.
Arguments uses_after_address {D}.
Arguments pods_addresses {D}.
Arguments others {D}.

(** Attribute assignments [a.x = v]. *)
Definition set_replicas {D} (v : option Z) (a : t D) : t D :=
  mk (name a) (shards a) v (uses a) (uses_before a) (uses_after a)
     (uses_with a) (env a) (gpus a) (k8s_connection_pool a) (k8s_namespace a)
     (k8s_custom_resource_dir a) (port_expose a) (runtime_cls a) (pea_role a)
     (port_in a) (shard_id a) (connection_list a) (uses_before_address a)
     (uses_after_address a) (pods_addresses a) (others a).
Definition set_uses_before {D} (v : option string) (a : t D) : t D :=
  mk (name a) (shards a) (replicas a) (uses a) v (uses_after a)
     (uses_with a) (env a) (gpus a) (k8s_connection_pool a) (k8s_namespace a)
     (k8s_custom_resource_dir a) (port_expose a) (runtime_cls a) (pea_role a)
     (port_in a) (shard_id a) (connection_list a) (uses_before_address a)
     (uses_after_address a) (pods_addresses a) (others a).
Definition set_uses_after {D} (v : option string) (a : t D) : t D :=
  mk (name a) (shards a) (replicas a) (uses a) (uses_before a) v
     (uses_with a) (env a) (gpus a) (k8s_connection_pool a) (k8s_namespace a)
     (k8s_custom_resource_dir a) (port_expose a) (runtime_cls a) (pea_role a)
     (port_in a) (shard_id a) (connection_list a) (uses_before_address a)
     (uses_after_address a) (pods_addresses a) (others a).
Definition set_runtime_cls {D} (v : option string) (a : t D) : t D :=
  mk (name a) (shards a) (replicas a) (uses a) (uses_before a) (uses_after a)
     (uses_with a) (env a) (gpus a) (k8s_connection_pool a) (k8s_namespace a)
     (k8s_custom_resource_dir a) (port_expose a) v (pea_role a)
     (port_in a) (shard_id a) (connection_list a) (uses_before_address a)
     (uses_after_address a) (pods_addresses a) (others a).
Definition set_pea_role {D} (v : option PeaRoleType) (a : t D) : t D :=
  mk (name a) (shards a) (replicas a) (uses a) (uses_before a) (uses_after a)
     (uses_with a) (env a) (gpus a) (k8s_connection_pool a) (k8s_namespace a)
     (k8s_custom_resource_dir a) (port_expose a) (runtime_cls a) v
     (port_in a) (shard_id a) (connection_list a) (uses_before_address a)
     (uses_after_address a) (pods_addresses a) (others a).
Definition set_port_in {D} (v : option Z) (a : t D) : t D :=
  mk (name a) (shards a) (replicas a) (uses a) (uses_before a) (uses_after a)
     (uses_with a) (env a) (gpus a) (k8s_connection_pool a) (k8s_namespace a)
     (k8s_custom_resource_dir a) (port_expose a) (runtime_cls a) (pea_role a)
     v (shard_id a) (connection_list a) (uses_before_address a)
     (uses_after_address a) (pods_addresses a) (others a).
Definition set_shard_id {D} (v : option Z) (a : t D) : t D :=
  mk (name a) (shards a) (replicas a) (uses a) (uses_before a) (uses_after a)
     (uses_with a) (env a) (gpus a) (k8s_connection_pool a) (k8s_namespace a)
     (k8s_custom_resource_dir a) (port_expose a) (runtime_cls a) (pea_role a)
     (port_in a) v (connection_list a) (uses_before_address a)
     (uses_after_address a) (pods_addresses a) (others a).
Definition set_connection_list {D} (v : option string) (a : t D) : t D :=
  mk (name a) (shards a) (replicas a) (uses a) (uses_before a) (uses_after a)
     (uses_with a) (env a) (gpus a) (k8s_connection_pool a) (k8s_namespace a)
     (k8s_custom_resource_dir a) (port_expose a) (runtime_cls a) (pea_role a)
     (port_in a) (shard_id a) v (uses_before_address a)
     (uses_after_address a) (pods_addresses a) (others a).
Definition set_uses_before_address {D} (v : option string) (a : t D) : t D :=
  mk (name a) (shards a) (replicas a) (uses a) (uses_before a) (uses_after a)
     (uses_with a) (env a) (gpus a) (k8s_connection_pool a) (k8s_namespace a)
     (k8s_custom_resource_dir a) (port_expose a) (runtime_cls a) (pea_role a)
     (port_in a) (shard_id a) (connection_list a) v
     (uses_after_address a) (pods_addresses a) (others a).
Definition set_uses_after_address {D} (v : option string) (a : t D) : t D :=
  mk (name a) (shards a) (replicas a) (uses a) (uses_before a) (uses_after a)
     (uses_with a) (env a) (gpus a) (k8s_connection_pool a) (k8s_namespace a)
     (k8s_custom_resource_dir a) (port_expose a) (runtime_cls a) (pea_role a)
     (port_in a) (shard_id a) (connection_list a) (uses_before_address a)
     v (pods_addresses a) (others a).
Definition set_pods_addresses {D} (v : option (list string)) (a : t D) : t D :=
  mk (name a) (shards a) (replicas a) (uses a) (uses_before a) (uses_after a)
     (uses_with a) (env a) (gpus a) (k8s_connection_pool a) (k8s_namespace a)
     (k8s_custom_resource_dir a) (port_expose a) (runtime_cls a) (pea_role a)
     (port_in a) (shard_id a) (connection_list a) (uses_before_address a)
     (uses_after_address a) v (others a).

(** The same attributes with other stand-ins for the two dictionaries. *)
Definition with_dicts {D E} (uw ev : option E) (a : t D) : t E :=
  mk (name a) (shards a) (replicas a) (uses a) (uses_before a) (uses_after a)
     uw ev (gpus a) (k8s_connection_pool a) (k8s_namespace a)
     (k8s_custom_resource_dir a) (port_expose a) (runtime_cls a) (pea_role a)
     (port_in a) (shard_id a) (connection_list a) (uses_before_address a)
     (uses_after_address a) (pods_addresses a) (others a).
End Namespace.

(** An object of the store. *)
Inductive obj :=
  | ONamespace (a : Namespace.t loc)
  | ODict (d : dict).

(** The object that mixes [PodConfig] in: [self.args], [self.name], and the
    text [repr(self)] gives ([<module.Class object at 0x...>] unless the class
    defines its own). *)
Module PodConfig.
Record t := mk { args : loc; name : string; repr : string }.
End PodConfig.

(** The dictionary [_get_deployment_args] returns. *)
Module ParsedArgs.
Record t := mk { head_deployment : option loc; deployments : list loc }.
End ParsedArgs.

(** [PodConfig._K8sDeployment]. *)
Module K8sDeployment.
Record t := mk {
  name : string;
  dns_name : string;
  head_port_in : Z;
  version : string;
  pea_type : string;
  jina_pod_name : string;
  shard_id : option Z;
  common_args : loc;
  deployment_args : option loc;
  num_replicas : Z;
  cluster_address : option string
}.
End K8sDeployment.

(** ** The world: store, registry and environment *)

Inductive exn :=
  | AttributeError
  | IndexError
  | RequestError (msg : string)
  (* a location that holds no object of the expected kind; Python has no
     such state *)
  | SystemError.

Record World := mkWorld {
  (* the objects allocated so far; a location is an index *)
  heap : list obj;
  (* how many times the registry was asked *)
  calls : nat;
  (* what the [n]-th request to the registry yields: the names of the tags
     it lists, or the exception [requests.get(url).json()] ends in *)
  registry : nat -> exn + list string;
  (* [os.getenv('JINA_K8S_USE_TEST_PIP') is not None] *)
  JINA_K8S_USE_TEST_PIP : bool
}.

Definition set_heap (h : list obj) (w : World) : World :=
  mkWorld h (calls w) (registry w) (JINA_K8S_USE_TEST_PIP w).

Definition tick (w : World) : World :=
  mkWorld (heap w) (S (calls w)) (registry w) (JINA_K8S_USE_TEST_PIP w).

(** ** The monad *)

Definition M (A : Type) : Type := World -> (exn + A) * World.

Definition ret {A} (a : A) : M A := fun w => (inr a, w).

Definition raise {A} (e : exn) : M A := fun w => (inl e, w).

Definition bind {A B} (m : M A) (f : A -> M B) : M B :=
  fun w => match m w with
           | (inr a, w') => f a w'
           | (inl e, w') => (inl e, w')
           end.

Notation "x <- m ;; k" := (bind m (fun x => k))
  (at level 100, m at next level, k at level 200, right associativity).
Notation "m ;; k" := (bind m (fun _ => k))
  (at level 100, k at level 200, right associativity).

Fixpoint mapM {A B} (f : A -> M B) (l : list A) : M (list B) :=
  match l with
  | [] => ret []
  | x :: l' => y <- f x;; ys <- mapM f l';; ret (y :: ys)
  end.

(** *** Store operations *)

Definition load (l : loc) : M obj :=
  fun w => match heap w !! l with
           | Some o => (inr o, w)
           | None => (inl SystemError, w)
           end.

Definition new (o : obj) : M loc :=
  fun w => (inr (length (heap w)), set_heap (heap w ++ [o]) w).

Definition write (l : loc) (o : obj) : M unit :=
  fun w => (inr tt, set_heap (<[l := o]> (heap w)) w).

(** The attributes of the namespace at [l]. *)
Definition attrs (l : loc) : M (Namespace.t loc) :=
  o <- load l;;
  match o with
  | ONamespace a => ret a
  | ODict _ => raise AttributeError
  end.

(** The dictionary at [l]. *)
Definition items (l : loc) : M dict :=
  o <- load l;;
  match o with
  | ODict d => ret d
  | ONamespace _ => raise SystemError
  end.

(** [l.x = v], for the assignment [f] of one attribute. *)
Definition setattr (l : loc) (f : Namespace.t loc -> Namespace.t loc) : M unit :=
  a <- attrs l;;
  write l (ONamespace (f a)).

(** [copy.copy(l)]: a new namespace with the same attribute values; the
    dictionaries are shared with the original. *)
Definition copy_copy (l : loc) : M loc :=
  a <- attrs l;;
  new (ONamespace a).

(** [copy.deepcopy] of an attribute that holds [None] or a dictionary. *)
Definition deepcopy_dict (r : option loc) : M (option loc) :=
  match r with
  | None => ret None
  | Some l => d <- items l;; l' <- new (ODict d);; ret (Some l')
  end.

(** [copy.deepcopy(l)]: a new namespace whose dictionaries are copies as
    well; an object met twice is copied once (the memo of [deepcopy]). *)
Definition deepcopy (l : loc) : M loc :=
  a <- attrs l;;
  uw <- deepcopy_dict (Namespace.uses_with a);;
  ev <- (if decide (Namespace.env a = Namespace.uses_with a) then ret uw
         else deepcopy_dict (Namespace.env a));;
  new (ONamespace (Namespace.with_dicts uw ev a)).

(** The namespace at [l] with its dictionaries read out. *)
Definition read_dict (r : option loc) : M (option dict) :=
  match r with
  | None => ret None
  | Some l => d <- items l;; ret (Some d)
  end.

Definition snapshot (l : loc) : M (Namespace.t dict) :=
  a <- attrs l;;
  uw <- read_dict (Namespace.uses_with a);;
  ev <- read_dict (Namespace.env a);;
  ret (Namespace.with_dicts uw ev a).

(** [os.getenv('JINA_K8S_USE_TEST_PIP') is not None]. *)
Definition getenv_test_pip : M bool :=
  fun w => (inr (JINA_K8S_USE_TEST_PIP w), w).

(** [requests.get(url).json()], as the names of the tags it lists. *)
Definition requests_get_tags : M (list string) :=
  fun w => match registry w (calls w) with
           | inl e => (inl e, tick w)
           | inr tags => (inr tags, tick w)
           end.

(** ** What the module imports *)

(** A keyword argument handed to [get_deployment_yamls]. *)
Inductive kwarg (I : Type) :=
  | KNone
  | KStr (s : string)
  | KInt (z : Z)
  | KDict (d : dict)
  | KInit (c : I).
Arguments KNone {I}.
Arguments KStr {I}.
Arguments KInt {I}.
Arguments KDict {I}.
Arguments KInit {I}.

Definition kopt {I} (o : option string) : kwarg I :=
  match o with Some s => KStr s | None => KNone end.

(** The constants of [K8sGrpcConnectionPool], the package's [__version__]
    and [__default_executor__], and the functions of [kubernetes_deployment]
    that the module calls.  A function takes the namespace it is given with
    its dictionaries read out.  [get_cli_params] takes its optional keywords
    as options ([None]: not passed); [get_deployment_yamls] takes the name
    and the keywords it is called with, in order. *)
Class Imports := {
  K8S_PORT_IN : Z;
  K8S_PORT_USES_BEFORE : Z;
  K8S_PORT_USES_AFTER : Z;
  __default_executor__ : string;
  __version__ : string;
  Fragment : Type;
  InitContainer : Type;
  to_dns_name : string -> string;
  get_image_name : string -> string;
  get_cli_params :
    Namespace.t dict -> option (list string) -> option (option Z) -> string;
  dictionary_to_cli_param : option dict -> string;
  get_init_container_args : Namespace.t dict -> InitContainer;
  get_deployment_yamls : string -> list (string * kwarg InitContainer) -> list Fragment
}.

(** The double quote, and a text between double quotes. *)
Definition dq : string := String "034"%char EmptyString.
Definition quoted (s : string) : string := dq +:+ s +:+ dq.

(** [str(m)] for a method [m] bound to [self]: Python prints the qualified
    name of the function and [repr(self)]. *)
Definition str_bound_method (qualname : string) (self : PodConfig.t) : string :=
  "<bound method " +:+ qualname +:+ " of " +:+ PodConfig.repr self +:+ ">".

Section PodConfig.
Context `{Imports}.

(** *** [_get_base_executor_version] *)

Definition _get_base_executor_version : M string :=
  tags <- requests_get_tags;;
  let name_set := tags in
  if existsb (String.eqb __version__) name_set then ret __version__
  else ret "master".

(** *** [PodConfig._K8sDeployment] *)

Definition _K8sDeployment (name : string) (head_port_in : Z)
    (version pea_type jina_pod_name : string) (shard_id : option Z)
    (common_args : loc) (deployment_args : option loc) : M K8sDeployment.t :=
  (* getattr(self.deployment_args, 'replicas', 1) *)
  num_replicas <- match deployment_args with
                  | Some l => a <- attrs l;; ret (default 1 (Namespace.replicas a))
                  | None => ret 1
                  end;;
  ret (K8sDeployment.mk name (to_dns_name name) head_port_in version pea_type
         jina_pod_name shard_id common_args deployment_args num_replicas None).

Definition get_gateway_yamls (self : K8sDeployment.t) (k8s_namespace : string)
    (pod_addresses : option (list string)) : M (list Fragment) :=
  test_pip <- getenv_test_pip;;
  let image_name :=
    if test_pip then "jinaai/jina:test-pip"
    else "jinaai/jina:" +:+ K8sDeployment.version self +:+ "-py38-standard" in
  cargs <- copy_copy (K8sDeployment.common_args self);;
  c <- attrs cargs;;
  (if Namespace.k8s_connection_pool c
   then setattr cargs (Namespace.set_pods_addresses (Some []))
   else setattr cargs (Namespace.set_pods_addresses pod_addresses));;
  c <- snapshot cargs;;
  ret (get_deployment_yamls (K8sDeployment.dns_name self)
         [ ("namespace", KStr k8s_namespace);
           ("image_name", KStr image_name);
           ("container_cmd", KStr ("[" +:+ quoted "jina" +:+ "]"));
           ("container_args",
             KStr ("[" +:+ quoted "gateway" +:+ ", "
                   +:+ get_cli_params c (Some ["pod_role"]) None +:+ "]"));
           ("replicas", KInt 1);
           ("pull_policy", KStr "IfNotPresent");
           ("jina_pod_name", KStr "gateway");
           ("pea_type", KStr "gateway");
           ("port_expose", KInt (Namespace.port_expose c)) ]).

Definition _construct_runtime_container_args (deployment_args : Namespace.t dict)
    (uses uses_metas uses_with_string pea_type : string) (port_in : option Z)
    : string :=
  "[" +:+ quoted "executor" +:+ ", "
  +:+ quoted "--native" +:+ ", "
  +:+ quoted "--uses" +:+ ", " +:+ quoted uses +:+ ", "
  +:+ quoted "--runtime-cls" +:+ ", "
  +:+ (if String.eqb (lower pea_type) "worker" then "WorkerRuntime"
       else "HeadRuntime") +:+ ", "
  +:+ quoted "--uses-metas" +:+ ", " +:+ quoted uses_metas +:+ ", "
  +:+ uses_with_string
  +:+ get_cli_params deployment_args None (Some port_in) +:+ "]".

Definition _get_image_name (self : K8sDeployment.t) (uses : string) : M string :=
  let image_name := get_image_name uses in
  if String.eqb image_name __default_executor__ then
    test_pip <- getenv_test_pip;;
    ret (if test_pip then "jinaai/jina:test-pip"
         else "jinaai/jina:" +:+ K8sDeployment.version self +:+ "-py38-perf")
  else ret image_name.

(** [_get_init_container_args] and [_get_container_args] take the namespaces
    of [self.common_args] and of [self.deployment_args] as their caller,
    [get_runtime_yamls], has read them. *)
Definition _get_init_container_args (common_args : Namespace.t dict) : InitContainer :=
  get_init_container_args common_args.

Definition _get_container_args (self : K8sDeployment.t)
    (deployment_args : Namespace.t dict) (uses : string)
    (pea_type : option string) (port_in : option Z) : string :=
  let uses_metas :=
    dictionary_to_cli_param
      (Some [("pea_id", match K8sDeployment.shard_id self with
                        | Some i => SInt i
                        | None => SNone
                        end)]) in
  let uses_with := dictionary_to_cli_param (Namespace.uses_with deployment_args) in
  let uses_with_string :=
    if truthy uses_with
    then quoted "--uses-with" +:+ ", " +:+ quoted uses_with +:+ ", "
    else "" in
  let uses := if negb (String.eqb uses __default_executor__) then "config.yml"
              else uses in
  _construct_runtime_container_args deployment_args uses uses_metas
    uses_with_string
    (if is_set pea_type then default "" pea_type else K8sDeployment.pea_type self)
    port_in.

(** The reads of [self.deployment_args] and of [self.common_args] are each
    gathered in one read of the object: the method assigns nothing. *)
Definition get_runtime_yamls (self : K8sDeployment.t) (k8s_namespace : string)
    : M (list Fragment) :=
  da <- match K8sDeployment.deployment_args self with
        | Some l => snapshot l
        | None => raise AttributeError
        end;;
  image_name <- _get_image_name self (Namespace.uses da);;
  image_name_uses_before <-
    (if is_set (Namespace.uses_before da)
     then i <- _get_image_name self (default "" (Namespace.uses_before da));;
          ret (Some i)
     else ret None);;
  image_name_uses_after <-
    (if is_set (Namespace.uses_after da)
     then i <- _get_image_name self (default "" (Namespace.uses_after da));;
          ret (Some i)
     else ret None);;
  ca <- snapshot (K8sDeployment.common_args self);;
  let init_container_args := _get_init_container_args ca in
  let container_args := _get_container_args self da (Namespace.uses da) None None in
  let container_args_uses_before :=
    if is_set (Namespace.uses_before da)
    then Some (_get_container_args self da (default "" (Namespace.uses_before da))
                 (Some "worker") (Some K8S_PORT_USES_BEFORE))
    else None in
  let container_args_uses_after :=
    if is_set (Namespace.uses_after da)
    then Some (_get_container_args self da (default "" (Namespace.uses_after da))
                 (Some "worker") (Some K8S_PORT_USES_AFTER))
    else None in
  ret (get_deployment_yamls (K8sDeployment.dns_name self)
         [ ("namespace", KStr k8s_namespace);
           ("image_name", KStr image_name);
           ("image_name_uses_after", kopt image_name_uses_after);
           ("image_name_uses_before", kopt image_name_uses_before);
           ("container_cmd", KStr ("[" +:+ quoted "jina" +:+ "]"));
           ("container_cmd_uses_before", KStr ("[" +:+ quoted "jina" +:+ "]"));
           ("container_cmd_uses_after", KStr ("[" +:+ quoted "jina" +:+ "]"));
           ("container_args", KStr container_args);
           ("container_args_uses_before", kopt container_args_uses_before);
           ("container_args_uses_after", kopt container_args_uses_after);
           ("replicas", KInt (K8sDeployment.num_replicas self));
           ("pull_policy", KStr "IfNotPresent");
           ("jina_pod_name", KStr (K8sDeployment.jina_pod_name self));
           ("pea_type", KStr (K8sDeployment.pea_type self));
           ("shard_id", match K8sDeployment.shard_id self with
                        | Some i => KInt i
                        | None => KNone
                        end);
           ("init_container", KInit init_container_args);
           ("env", match Namespace.env da with
                   | Some d => KDict d
                   | None => KNone
                   end);
           ("gpus", kopt (Namespace.gpus da));
           ("custom_resource_dir", kopt (Namespace.k8s_custom_resource_dir ca)) ]).

(** *** [PodConfig] *)

(** The method [k8s_namespace]; the class declares it with [def] and without
    [@property]. *)
Definition k8s_namespace (self : PodConfig.t) : M string :=
  a <- attrs (PodConfig.args self);;
  ret (Namespace.k8s_namespace a).

(** One round of the loop that builds the connection list (lines 232-233).
    [self.k8s_namespace] is not called there: the f-string formats the bound
    method. *)
Definition connection_entry (self : PodConfig.t) (shards i : Z) : string :=
  let name := if (1 <? shards)%Z then PodConfig.name self +:+ "-" +:+ str i
              else PodConfig.name self in
  quoted (str i) +:+ ": "
  +:+ dq +:+ name +:+ "."
  +:+ str_bound_method "PodConfig.k8s_namespace" self
  +:+ ".svc:" +:+ str K8S_PORT_IN +:+ dq +:+ ",".

Definition _get_deployment_args (self : PodConfig.t) (args : loc) : M ParsedArgs.t :=
  a <- attrs args;;
  let shards := default 1 (Namespace.shards a) in
  let uses_before := Namespace.uses_before a in
  let uses_after := Namespace.uses_after a in
  a <- attrs args;;
  head_deployment <-
    (if negb (String.eqb (Namespace.name a) "gateway") then
       h <- copy_copy args;;
       setattr h (Namespace.set_replicas (Some 1));;
       setattr h (Namespace.set_runtime_cls (Some "HeadRuntime"));;
       setattr h (Namespace.set_pea_role (Some HEAD));;
       setattr h (Namespace.set_port_in (Some K8S_PORT_IN));;
       a <- attrs args;;
       (if negb (Namespace.k8s_connection_pool a) then
          let connection_list :=
            fold_left (fun acc i => acc +:+ connection_entry self shards i)
              (range shards) "{" in
          let connection_list := drop_last connection_list in
          let connection_list := connection_list +:+ "}" in
          setattr h (Namespace.set_connection_list (Some connection_list))
        else ret tt);;
       ret (Some h)
     else ret None);;
  (if is_set uses_before then
     match head_deployment with
     | Some h =>
         setattr h (Namespace.set_uses_before_address
                      (Some ("127.0.0.1:" +:+ str K8S_PORT_USES_BEFORE)))
     | None => raise AttributeError
     end
   else ret tt);;
  (if is_set uses_after then
     match head_deployment with
     | Some h =>
         setattr h (Namespace.set_uses_after_address
                      (Some ("127.0.0.1:" +:+ str K8S_PORT_USES_AFTER)))
     | None => raise AttributeError
     end
   else ret tt);;
  deployments <-
    mapM (fun i =>
            cargs <- deepcopy args;;
            setattr cargs (Namespace.set_shard_id (Some i));;
            setattr cargs (Namespace.set_uses_before None);;
            setattr cargs (Namespace.set_uses_after None);;
            setattr cargs (Namespace.set_port_in (Some K8S_PORT_IN));;
            a <- attrs args;;
            (if String.eqb (Namespace.name a) "gateway"
             then setattr cargs (Namespace.set_pea_role (Some GATEWAY))
             else ret tt);;
            ret cargs)
         (range shards);;
  ret (ParsedArgs.mk head_deployment deployments).

(** The property [head_deployment]; [None] when the method falls off its
    end. *)
Definition head_deployment (self : PodConfig.t) : M (option K8sDeployment.t) :=
  p <- _get_deployment_args self (PodConfig.args self);;
  match ParsedArgs.head_deployment p with
  | Some _ =>
      let name := PodConfig.name self +:+ "-head" in
      version <- _get_base_executor_version;;
      p <- _get_deployment_args self (PodConfig.args self);;
      d <- _K8sDeployment name K8S_PORT_IN version "head" (PodConfig.name self)
             None (PodConfig.args self) (ParsedArgs.head_deployment p);;
      ret (Some d)
  | None => ret None
  end.

(** The property [worker_deployments]. *)
Definition worker_deployments (self : PodConfig.t) : M (list K8sDeployment.t) :=
  p <- _get_deployment_args self (PodConfig.args self);;
  let deployment_args := ParsedArgs.deployments p in
  mapM (fun '(i, args) =>
          let name := if (1 <? length deployment_args)%nat
                      then PodConfig.name self +:+ "-" +:+ str i
                      else PodConfig.name self in
          version <- _get_base_executor_version;;
          _K8sDeployment name K8S_PORT_IN version "worker" (PodConfig.name self)
            (Some i) (PodConfig.args self) (Some args))
       (enumerate deployment_args).

Definition to_k8s_yaml (self : PodConfig.t) (k8s_namespace : string)
    (pod_addresses : option (list string)) : M (list (string * list Fragment)) :=
  if String.eqb (PodConfig.name self) "gateway" then
    ws <- worker_deployments self;;
    match ws with
    | d :: _ =>
        y <- get_gateway_yamls d k8s_namespace pod_addresses;;
        ret [("gateway", y)]
    | [] => raise IndexError
    end
  else
    h <- head_deployment self;;
    ws <- worker_deployments self;;
    let deployments := h :: map Some ws in
    mapM (fun deployment =>
            match deployment with
            | Some d =>
                y <- get_runtime_yamls d k8s_namespace;;
                ret (K8sDeployment.name d, y)
            | None => raise AttributeError
            end)
         deployments.

End PodConfig.

(** * Vocabulary of the proofs *)

Local Open Scope list_scope.

(** [w] extends [w0]: every object of [w0] is still there, unchanged, and the
    registry and the environment are the same. *)
Record extends (w0 w : World) : Prop := mkExtends {
  ext_heap : heap w0 `prefix_of` heap w;
  ext_calls : (calls w0 <= calls w)%nat;
  ext_registry : registry w = registry w0;
  ext_environ : JINA_K8S_USE_TEST_PIP w = JINA_K8S_USE_TEST_PIP w0
}.

(** A location allocated after [w0]. *)
Definition newer (w0 : World) (l : loc) : Prop := (length (heap w0) <= l)%nat.

(** [m] leaves the objects of [w0] alone, and its result satisfies [P]. *)
Definition framed {A} (w0 : World) (P : A -> Prop) (m : M A) : Prop :=
  forall w, extends w0 w ->
    extends w0 (m w).2 /\ match (m w).1 with inr a => P a | inl _ => True end.

(** What [_get_deployment_args] returns was allocated by it. *)
Definition newer_parsed (w0 : World) (p : ParsedArgs.t) : Prop :=
  match ParsedArgs.head_deployment p with Some h => newer w0 h | None => True end
  /\ Forall (newer w0) (ParsedArgs.deployments p).

(** The world after [c] more requests and with the objects [k] allocated. *)
Definition grow (k : list obj) (c : nat) (w : World) : World :=
  mkWorld (heap w ++ k) (c + calls w) (registry w) (JINA_K8S_USE_TEST_PIP w).

(** The object at [r] is the dictionary [d], or both are [None]. *)
Definition dict_at (h : list obj) (r : option loc) (d : option dict) : Prop :=
  match r, d with
  | None, None => True
  | Some l, Some d => h !! l = Some (ODict d)
  | _, _ => False
  end.

(** The store [h] holds at [l] the namespace [a], and [s] is [a] with its
    dictionaries read out. *)
Definition rep (h : list obj) (l : loc) (a : Namespace.t loc) (s : Namespace.t dict)
    : Prop :=
  h !! l = Some (ONamespace a)
  /\ exists uw ev,
       dict_at h (Namespace.uses_with a) uw
       /\ dict_at h (Namespace.env a) ev
       /\ s = Namespace.with_dicts uw ev a.

(** The world after [n] more requests to the registry. *)
Definition ticks (n : nat) (w : World) : World :=
  mkWorld (heap w) (n + calls w) (registry w) (JINA_K8S_USE_TEST_PIP w).

(** The locations a namespace object reaches: itself and its dictionaries. *)
Definition reach (h : list obj) (l : loc) : list loc :=
  match h !! l with
  | Some (ONamespace a) =>
      l :: option_list (Namespace.uses_with a) ++ option_list (Namespace.env a)
  | _ => [l]
  end.

(** The value of the keyword [k] among the keyword arguments [kw] of a
    call. *)
Fixpoint kwarg_of {I} (k : string) (kw : list (string * kwarg I)) : option (kwarg I) :=
  match kw with
  | [] => None
  | (k', v) :: kw' => if String.eqb k k' then Some v else kwarg_of k kw'
  end.

(** [m] only reads: it leaves the world as it found it, whether it returns
    or raises. *)
Definition reads {A} (m : M A) : Prop := forall w, (m w).2 = w.

(** [m] sends no request to the registry. *)
Definition quiet {A} (m : M A) : Prop := forall w, calls (m w).2 = calls w.

Section Vocabulary.
Context `{Imports}.

(** The text of the connection list (lines 230-235). *)
Definition connection_list_text (self : PodConfig.t) (shards : Z) : string :=
  drop_last (fold_left (fun acc i => acc +:+ connection_entry self shards i)
               (range shards) "{") +:+ "}".

(** The head's namespace, from the namespace [s] of the Pod. *)
Definition head_of {D} (self : PodConfig.t) (s : Namespace.t D) : Namespace.t D :=
  let s1 := Namespace.set_port_in (Some K8S_PORT_IN)
              (Namespace.set_pea_role (Some HEAD)
                 (Namespace.set_runtime_cls (Some "HeadRuntime")
                    (Namespace.set_replicas (Some 1) s))) in
  let s2 := if Namespace.k8s_connection_pool s then s1
            else Namespace.set_connection_list
                   (Some (connection_list_text self (default 1 (Namespace.shards s)))) s1 in
  let s3 := if is_set (Namespace.uses_before s)
            then Namespace.set_uses_before_address
                   (Some ("127.0.0.1:" +:+ str K8S_PORT_USES_BEFORE)) s2
            else s2 in
  if is_set (Namespace.uses_after s)
  then Namespace.set_uses_after_address
         (Some ("127.0.0.1:" +:+ str K8S_PORT_USES_AFTER)) s3
  else s3.

(** The namespace of the worker of shard [i]. *)
Definition worker_of {D} (s : Namespace.t D) (i : Z) : Namespace.t D :=
  let c := Namespace.set_port_in (Some K8S_PORT_IN)
             (Namespace.set_uses_after None
                (Namespace.set_uses_before None
                   (Namespace.set_shard_id (Some i) s))) in
  if String.eqb (Namespace.name s) "gateway"
  then Namespace.set_pea_role (Some GATEWAY) c
  else c.

(** The workers [cs] of the shards [js], allocated one after the other
    between [lo] and [hi]. *)
Fixpoint chain (h : list obj) (s : Namespace.t dict) (lo hi : nat)
    (js : list Z) (cs : list loc) : Prop :=
  match js, cs with
  | [], [] => (lo <= hi)%nat
  | i :: js', c :: cs' =>
      exists mid ac,
        rep h c ac (worker_of s i)
        /\ Forall (fun x => lo <= x < mid)%nat (reach h c)
        /\ chain h s mid hi js' cs'
  | _, _ => False
  end.

(** The body of the loop over the shards (lines 253-260). *)
Definition shard_args (args : loc) (i : Z) : M loc :=
  cargs <- deepcopy args;;
  setattr cargs (Namespace.set_shard_id (Some i));;
  setattr cargs (Namespace.set_uses_before None);;
  setattr cargs (Namespace.set_uses_after None);;
  setattr cargs (Namespace.set_port_in (Some K8S_PORT_IN));;
  a <- attrs args;;
  (if String.eqb (Namespace.name a) "gateway"
   then setattr cargs (Namespace.set_pea_role (Some GATEWAY))
   else ret tt);;
  ret cargs.

(** The tag [_get_base_executor_version] picks from the names the registry
    lists. *)
Definition pick_version (tags : list string) : string :=
  if existsb (String.eqb __version__) tags then __version__ else "master".

(** The version a request yields, when it does not fail. *)
Definition version_at (w : World) (n : nat) : string :=
  match registry w n with
  | inr tags => pick_version tags
  | inl _ => ""
  end.

(** The requests [n], ..., [n + k - 1] to the registry succeed. *)
Definition registry_answers (w : World) (n k : nat) : Prop :=
  forall q, (q < k)%nat -> exists tags, registry w (q + n)%nat = inr tags.

(** What [_get_image_name] returns. *)
Definition image_name_of (version : string) (test_pip : bool) (uses : string) : string :=
  if String.eqb (get_image_name uses) __default_executor__ then
    if test_pip then "jinaai/jina:test-pip"
    else "jinaai/jina:" +:+ version +:+ "-py38-perf"
  else get_image_name uses.

(** What [get_runtime_yamls] returns, from what it reads: the namespaces
    [da] of [self.deployment_args] and [ca] of [self.common_args], and the
    environment. *)
Definition runtime_yamls (self : K8sDeployment.t) (da ca : Namespace.t dict)
    (test_pip : bool) (k8s_namespace : string) : list Fragment :=
  let image := image_name_of (K8sDeployment.version self) test_pip in
  get_deployment_yamls (K8sDeployment.dns_name self)
    [ ("namespace", KStr k8s_namespace);
      ("image_name", KStr (image (Namespace.uses da)));
      ("image_name_uses_after",
        kopt (if is_set (Namespace.uses_after da)
              then Some (image (default "" (Namespace.uses_after da))) else None));
      ("image_name_uses_before",
        kopt (if is_set (Namespace.uses_before da)
              then Some (image (default "" (Namespace.uses_before da))) else None));
      ("container_cmd", KStr ("[" +:+ quoted "jina" +:+ "]"));
      ("container_cmd_uses_before", KStr ("[" +:+ quoted "jina" +:+ "]"));
      ("container_cmd_uses_after", KStr ("[" +:+ quoted "jina" +:+ "]"));
      ("container_args",
        KStr (_get_container_args self da (Namespace.uses da) None None));
      ("container_args_uses_before",
        kopt (if is_set (Namespace.uses_before da)
              then Some (_get_container_args self da
                           (default "" (Namespace.uses_before da))
                           (Some "worker") (Some K8S_PORT_USES_BEFORE))
              else None));
      ("container_args_uses_after",
        kopt (if is_set (Namespace.uses_after da)
              then Some (_get_container_args self da
                           (default "" (Namespace.uses_after da))
                           (Some "worker") (Some K8S_PORT_USES_AFTER))
              else None));
      ("replicas", KInt (K8sDeployment.num_replicas self));
      ("pull_policy", KStr "IfNotPresent");
      ("jina_pod_name", KStr (K8sDeployment.jina_pod_name self));
      ("pea_type", KStr (K8sDeployment.pea_type self));
      ("shard_id", match K8sDeployment.shard_id self with
                   | Some i => KInt i
                   | None => KNone
                   end);
      ("init_container", KInit (_get_init_container_args ca));
      ("env", match Namespace.env da with
              | Some d => KDict d
              | None => KNone
              end);
      ("gpus", kopt (Namespace.gpus da));
      ("custom_resource_dir", kopt (Namespace.k8s_custom_resource_dir ca)) ].

(** What [get_gateway_yamls] returns, from the namespace [ca] of
    [self.common_args]. *)
Definition gateway_yamls (self : K8sDeployment.t) (ca : Namespace.t dict)
    (test_pip : bool) (k8s_namespace : string) (pod_addresses : option (list string))
    : list Fragment :=
  let cargs :=
    Namespace.set_pods_addresses
      (if Namespace.k8s_connection_pool ca then Some [] else pod_addresses) ca in
  get_deployment_yamls (K8sDeployment.dns_name self)
    [ ("namespace", KStr k8s_namespace);
      ("image_name",
        KStr (if test_pip then "jinaai/jina:test-pip"
              else "jinaai/jina:" +:+ K8sDeployment.version self +:+ "-py38-standard"));
      ("container_cmd", KStr ("[" +:+ quoted "jina" +:+ "]"));
      ("container_args",
        KStr ("[" +:+ quoted "gateway" +:+ ", "
              +:+ get_cli_params cargs (Some ["pod_role"]) None +:+ "]"));
      ("replicas", KInt 1);
      ("pull_policy", KStr "IfNotPresent");
      ("jina_pod_name", KStr "gateway");
      ("pea_type", KStr "gateway");
      ("port_expose", KInt (Namespace.port_expose cargs)) ].

(** *** The descriptors *)

Definition head_descriptor (self : PodConfig.t) (v : string) (h : loc)
    : K8sDeployment.t :=
  K8sDeployment.mk (PodConfig.name self +:+ "-head")
    (to_dns_name (PodConfig.name self +:+ "-head")) K8S_PORT_IN v "head"
    (PodConfig.name self) None (PodConfig.args self) (Some h) 1 None.

(** The name of the worker of shard [i] when there are [n] workers. *)
Definition worker_name (self : PodConfig.t) (n : nat) (i : Z) : string :=
  if (1 <? n)%nat then PodConfig.name self +:+ "-" +:+ str i
  else PodConfig.name self.

Definition worker_descriptor (self : PodConfig.t) (n : nat) (r : Z) (v : string)
    (i : Z) (c : loc) : K8sDeployment.t :=
  K8sDeployment.mk (worker_name self n i) (to_dns_name (worker_name self n i))
    K8S_PORT_IN v "worker" (PodConfig.name self) (Some i) (PodConfig.args self)
    (Some c) r None.

(** The number of workers: [shards], 1 when the attribute is absent, none
    when it is not positive. *)
Definition shard_count {D} (s : Namespace.t D) : nat :=
  Z.to_nat (default 1 (Namespace.shards s)).

(** The pairs [to_k8s_yaml] returns for a Pod that is not the gateway, from
    the namespace [s] of its arguments, the environment and the versions
    [vs 0], [vs 1], ... that the registry yields. *)
Definition pod_yamls (self : PodConfig.t) (s : Namespace.t dict) (test_pip : bool)
    (k8s_namespace : string) (vs : nat -> string) : list (string * list Fragment) :=
  let n := shard_count s in
  (PodConfig.name self +:+ "-head",
   runtime_yamls (head_descriptor self (vs 0%nat) 0%nat) (head_of self s) s
     test_pip k8s_namespace)
  :: map (fun q =>
            (worker_name self n (Z.of_nat q),
             runtime_yamls
               (worker_descriptor self n (default 1 (Namespace.replicas s))
                  (vs (S q)) (Z.of_nat q) 0%nat)
               (worker_of s (Z.of_nat q)) s test_pip k8s_namespace))
         (seq 0 n).

(** What [to_k8s_yaml] ends in, whatever the Pod: the pairs it returns or the
    exception it raises, from the namespace [s] of the arguments, the
    environment and the versions the registry yields. *)
Definition resolve_outcome (self : PodConfig.t) (s : Namespace.t dict)
    (test_pip : bool) (k8s_namespace : string) (pod_addresses : option (list string))
    (vs : nat -> string) : exn + list (string * list Fragment) :=
  let gateway_args := String.eqb (Namespace.name s) "gateway" in
  let filters := (is_set (Namespace.uses_before s)
                  || is_set (Namespace.uses_after s))%bool in
  if String.eqb (PodConfig.name self) "gateway" then
    if (gateway_args && filters)%bool then inl AttributeError
    else
      match shard_count s with
      | O => inl IndexError
      | S _ =>
          inr [("gateway",
                gateway_yamls
                  (worker_descriptor self (shard_count s)
                     (default 1 (Namespace.replicas s)) (vs 0%nat) 0 0%nat)
                  s test_pip k8s_namespace pod_addresses)]
      end
  else if gateway_args then inl AttributeError
  else inr (pod_yamls self s test_pip k8s_namespace vs).

End Vocabulary.

(** ** A concrete Pod, for the examples *)

(** An instance of the imports: three ports, a default executor, a running
    version, and helpers that record what they are given (a fragment is the
    name and the keywords [get_deployment_yamls] is called with). *)
Definition demo : Imports := {|
  K8S_PORT_IN := 8081;
  K8S_PORT_USES_BEFORE := 8082;
  K8S_PORT_USES_AFTER := 8083;
  __default_executor__ := "BaseExecutor";
  __version__ := "2.6.0";
  Fragment := string * list (string * kwarg unit);
  InitContainer := unit;
  to_dns_name := fun s => s;
  get_image_name := fun s => s;
  get_cli_params := fun a _ _ => default "" (Namespace.connection_list a);
  dictionary_to_cli_param := fun _ => "";
  get_init_container_args := fun _ => tt;
  get_deployment_yamls := fun n kw => [(n, kw)]
|}.

(** The arguments of a Pod named [name], with one dictionary of parameters
    (at location 1 of the store below) and the namespace ["ns"]. *)
Definition pod_args (name : string) (shards replicas : option Z) (pool : bool)
    (uses_before : option string) : Namespace.t loc :=
  Namespace.mk name shards replicas "BaseExecutor" uses_before None (Some 1%nat)
    None None pool "ns" None 8080 None None None None None None None None [].

(** The same arguments with the dictionary read out. *)
Definition pod_spec (name : string) (shards replicas : option Z) (pool : bool)
    (uses_before : option string) : Namespace.t dict :=
  Namespace.with_dicts (Some [("batch", SInt 8)]) None
    (pod_args name shards replicas pool uses_before).

(** A registry that lists the running version, and one that is down. *)
Definition registry_up : nat -> exn + list string :=
  fun _ => inr ["2.5.0"; "2.6.0"; "master"].

Definition registry_down : nat -> exn + list string :=
  fun _ => inl (RequestError "connection refused").

(** A world that holds the arguments [a] at location 0. *)
Definition world_of (a : Namespace.t loc) (registry : nat -> exn + list string)
    : World :=
  mkWorld [ONamespace a; ODict [("batch", SInt 8)]] 0 registry false.


(** The Pod object over the arguments at location 0. *)
Definition pod_at (name : string) : PodConfig.t :=
  PodConfig.mk 0%nat name "<jina.peapods.pods.Pod object at 0x7f2c>".

(** More Pods for the examples: the arguments of ["enc"] with two shards,
    three replicas and a filter before; with three shards and connection
    pooling disabled; with no shard; the arguments of the gateway with two
    shards and three replicas; with no shard. *)
Definition enc_filtered : Namespace.t loc :=
  pod_args "enc" (Some 2) (Some 3) true (Some "filter").

Definition enc_unpooled : Namespace.t loc :=
  pod_args "enc" (Some 3) None false None.

Definition enc_unsharded : Namespace.t loc :=
  pod_args "enc" (Some 0) None false None.

Definition gateway_args : Namespace.t loc :=
  pod_args "gateway" (Some 2) (Some 3) true None.

Definition gateway_unsharded : Namespace.t loc :=
  pod_args "gateway" (Some 0) None true None.

(** The arguments [a] as they read in [world_of a]. *)
Definition spec_of (a : Namespace.t loc) : Namespace.t dict :=
  Namespace.with_dicts (Some [("batch", SInt 8)]) None a.

(** A registry that does not list the running version, and one whose second
    answer is an error. *)
Definition registry_stale : nat -> exn + list string :=
  fun _ => inr ["2.5.0"; "master"].

Definition registry_flaky : nat -> exn + list string :=
  fun n => if (n =? 1)%nat then inl (RequestError "timed out")
           else inr ["2.5.0"; "2.6.0"; "master"].

(** The world of [world_of] with [JINA_K8S_USE_TEST_PIP] set. *)
Definition world_test_pip (a : Namespace.t loc) (registry : nat -> exn + list string)
    : World :=
  mkWorld [ONamespace a; ODict [("batch", SInt 8)]] 0 registry true.


(** * Proofs *)

(** ** Reasoning about runs *)

Section Frame.

Lemma extends_refl w : extends w w.
Proof. by split. Qed.

Lemma extends_trans w0 w1 w2 : extends w0 w1 -> extends w1 w2 -> extends w0 w2.
Proof.
  intros [] []; split.
  - by etrans.
  - lia.
  - congruence.
  - congruence.
Qed.

Lemma extends_lookup w0 w l o :
  extends w0 w -> heap w0 !! l = Some o -> heap w !! l = Some o.
Proof. intros [Hp _ _ _] Hl. by eapply prefix_lookup_Some. Qed.

Lemma extends_length w0 w : extends w0 w -> (length (heap w0) <= length (heap w))%nat.
Proof. intros [Hp _ _ _]. by apply prefix_length. Qed.

Lemma extends_new w0 w o : extends w0 w -> extends w0 (set_heap (heap w ++ [o]) w).
Proof.
  intros []; split; simpl; try done.
  etrans; [done|]. by apply prefix_app_r.
Qed.

Lemma extends_write w0 w l o :
  extends w0 w -> newer w0 l -> extends w0 (set_heap (<[l := o]> (heap w)) w).
Proof.
  intros [[k Hk] ? ? ?] Hl; split; simpl; try done.
  rewrite Hk. rewrite insert_app_r_alt by done. by eexists.
Qed.

Lemma extends_tick w0 w : extends w0 w -> extends w0 (tick w).
Proof. intros []; split; simpl; try done. lia. Qed.

Lemma framed_ret {A} w0 (P : A -> Prop) a : P a -> framed w0 P (ret a).
Proof. by intros ? w ?. Qed.

Lemma framed_raise {A} w0 (P : A -> Prop) e : framed w0 P (raise e).
Proof. by intros w ?. Qed.

Lemma framed_bind {A B} w0 (P : A -> Prop) (Q : B -> Prop) m f :
  framed w0 P m -> (forall a, P a -> framed w0 Q (f a)) -> framed w0 Q (bind m f).
Proof.
  intros Hm Hf w Hw. unfold bind.
  destruct (Hm w Hw) as [Hw' Hr]. destruct (m w) as [[e|a] w']; simpl in *.
  - done.
  - by apply Hf.
Qed.

Lemma framed_weaken {A} w0 (P Q : A -> Prop) m :
  framed w0 P m -> (forall a, P a -> Q a) -> framed w0 Q m.
Proof.
  intros Hm HPQ w Hw. destruct (Hm w Hw) as [? Hr]. split; [done|].
  destruct (m w).1; auto.
Qed.

Lemma framed_mapM {A B} w0 (P : B -> Prop) (f : A -> M B) l :
  (forall x, framed w0 P (f x)) -> framed w0 (Forall P) (mapM f l).
Proof.
  intros Hf. induction l as [|x l IH]; simpl.
  - by apply framed_ret.
  - eapply framed_bind; [apply Hf|]. intros y Hy.
    eapply framed_bind; [apply IH|]. intros ys Hys.
    apply framed_ret. by constructor.
Qed.

Lemma framed_load w0 l : framed w0 (fun _ => True) (load l).
Proof. intros w Hw. unfold load. by destruct (heap w !! l). Qed.

Lemma framed_new w0 o : framed w0 (newer w0) (new o).
Proof.
  intros w Hw. split; simpl.
  - by apply extends_new.
  - by apply extends_length.
Qed.

Lemma framed_write w0 l o : newer w0 l -> framed w0 (fun _ => True) (write l o).
Proof. intros Hl w Hw. split; [|done]. by apply extends_write. Qed.

Lemma framed_attrs w0 l : framed w0 (fun _ => True) (attrs l).
Proof.
  eapply framed_bind; [apply framed_load|]. intros [a|d] _.
  - by apply framed_ret.
  - apply framed_raise.
Qed.

Lemma framed_items w0 l : framed w0 (fun _ => True) (items l).
Proof.
  eapply framed_bind; [apply framed_load|]. intros [a|d] _.
  - apply framed_raise.
  - by apply framed_ret.
Qed.

Lemma framed_setattr w0 l f : newer w0 l -> framed w0 (fun _ => True) (setattr l f).
Proof.
  intros Hl. eapply framed_bind; [apply framed_attrs|]. intros a _.
  by apply framed_write.
Qed.

Lemma framed_copy_copy w0 l : framed w0 (newer w0) (copy_copy l).
Proof.
  eapply framed_bind; [apply framed_attrs|]. intros a _. apply framed_new.
Qed.

Lemma framed_deepcopy_dict w0 r : framed w0 (fun _ => True) (deepcopy_dict r).
Proof.
  destruct r as [l|]; simpl; [|by apply framed_ret].
  eapply framed_bind; [apply framed_items|]. intros d _.
  eapply framed_bind; [apply framed_new|]. intros l' _. by apply framed_ret.
Qed.

Lemma framed_deepcopy w0 l : framed w0 (newer w0) (deepcopy l).
Proof.
  eapply framed_bind; [apply framed_attrs|]. intros a _.
  eapply framed_bind; [apply framed_deepcopy_dict|]. intros uw _.
  eapply framed_bind.
  { instantiate (1 := fun _ => True). case_decide.
    - by apply framed_ret.
    - apply framed_deepcopy_dict. }
  intros ev _. apply framed_new.
Qed.

Lemma framed_read_dict w0 r : framed w0 (fun _ => True) (read_dict r).
Proof.
  destruct r as [l|]; simpl; [|by apply framed_ret].
  eapply framed_bind; [apply framed_items|]. intros d _. by apply framed_ret.
Qed.

Lemma framed_snapshot w0 l : framed w0 (fun _ => True) (snapshot l).
Proof.
  eapply framed_bind; [apply framed_attrs|]. intros a _.
  eapply framed_bind; [apply framed_read_dict|]. intros uw _.
  eapply framed_bind; [apply framed_read_dict|]. intros ev _.
  by apply framed_ret.
Qed.

Lemma framed_getenv w0 : framed w0 (fun _ => True) getenv_test_pip.
Proof. by intros w Hw. Qed.

Lemma framed_requests w0 : framed w0 (fun _ => True) requests_get_tags.
Proof.
  intros w Hw. unfold requests_get_tags.
  destruct (registry w (calls w)); simpl; split; try done; by apply extends_tick.
Qed.

End Frame.

Section FrameOfTheCode.
Context `{Imports}.

Ltac framed_step :=
  first
    [ apply framed_ret
    | apply framed_raise
    | eapply framed_bind;
      [ first [ apply framed_attrs | apply framed_snapshot | apply framed_copy_copy
              | apply framed_deepcopy | apply framed_getenv | apply framed_requests
              | apply framed_setattr; assumption ]
      | intros ? ? ] ].

Lemma framed_get_base_executor_version w0 :
  framed w0 (fun _ => True) _get_base_executor_version.
Proof.
  unfold _get_base_executor_version. framed_step.
  destruct (existsb _ _); by framed_step.
Qed.

Lemma framed_K8sDeployment w0 n p v t j s c d :
  framed w0 (fun _ => True) (_K8sDeployment n p v t j s c d).
Proof.
  unfold _K8sDeployment.
  eapply framed_bind with (P := fun _ => True).
  - destruct d; [|by framed_step]. framed_step. by framed_step.
  - intros. by framed_step.
Qed.

Lemma framed_get_image_name w0 d u : framed w0 (fun _ => True) (_get_image_name d u).
Proof.
  unfold _get_image_name. destruct (String.eqb _ _); [|by framed_step].
  framed_step. by framed_step.
Qed.

Lemma framed_get_runtime_yamls w0 d ns :
  framed w0 (fun _ => True) (get_runtime_yamls d ns).
Proof.
  unfold get_runtime_yamls.
  eapply framed_bind with (P := fun _ => True).
  { destruct (K8sDeployment.deployment_args d); [apply framed_snapshot|framed_step]. }
  intros da _.
  eapply framed_bind; [apply framed_get_image_name|]. intros i1 _.
  eapply framed_bind with (P := fun _ => True).
  { destruct (is_set _); [|by framed_step].
    eapply framed_bind; [apply framed_get_image_name|]. intros. by framed_step. }
  intros i2 _.
  eapply framed_bind with (P := fun _ => True).
  { destruct (is_set _); [|by framed_step].
    eapply framed_bind; [apply framed_get_image_name|]. intros. by framed_step. }
  intros i3 _.
  framed_step. by framed_step.
Qed.

Lemma framed_get_gateway_yamls w0 d ns pa :
  framed w0 (fun _ => True) (get_gateway_yamls d ns pa).
Proof.
  unfold get_gateway_yamls. framed_step. framed_step. framed_step.
  eapply framed_bind with (P := fun _ => True).
  { destruct (Namespace.k8s_connection_pool _); by apply framed_setattr. }
  intros _ _. framed_step. by framed_step.
Qed.

Lemma framed_get_deployment_args w0 self args :
  framed w0 (newer_parsed w0) (_get_deployment_args self args).
Proof.
  unfold _get_deployment_args. framed_step. framed_step.
  eapply framed_bind
    with (P := fun o => match o with Some h => newer w0 h | None => True end).
  { destruct (negb _); [|by framed_step].
    framed_step. do 5 framed_step.
    eapply framed_bind with (P := fun _ => True).
    - destruct (negb _); [by apply framed_setattr | by framed_step].
    - intros. by framed_step. }
  intros hd Hhd.
  eapply framed_bind with (P := fun _ => True).
  { destruct (is_set _); [|by framed_step].
    destruct hd; [by apply framed_setattr | framed_step]. }
  intros _ _.
  eapply framed_bind with (P := fun _ => True).
  { destruct (is_set _); [|by framed_step].
    destruct hd; [by apply framed_setattr | framed_step]. }
  intros _ _.
  eapply framed_bind.
  { apply framed_mapM with (P := newer w0). intros i.
    framed_step. do 5 framed_step.
    eapply framed_bind with (P := fun _ => True).
    - destruct (String.eqb _ _); [by apply framed_setattr | by framed_step].
    - intros. by framed_step. }
  intros ws Hws. by framed_step.
Qed.

Lemma framed_head_deployment w0 self : framed w0 (fun _ => True) (head_deployment self).
Proof.
  unfold head_deployment.
  eapply framed_bind; [apply framed_get_deployment_args|]. intros p _.
  destruct (ParsedArgs.head_deployment p); [|by framed_step].
  eapply framed_bind; [apply framed_get_base_executor_version|]. intros v _.
  eapply framed_bind; [apply framed_get_deployment_args|]. intros p' _.
  eapply framed_bind; [apply framed_K8sDeployment|]. intros. by framed_step.
Qed.

Lemma framed_worker_deployments w0 self :
  framed w0 (fun _ => True) (worker_deployments self).
Proof.
  unfold worker_deployments.
  eapply framed_bind; [apply framed_get_deployment_args|]. intros p _.
  eapply framed_weaken.
  - apply framed_mapM with (P := fun _ => True). intros [i a].
    eapply framed_bind; [apply framed_get_base_executor_version|]. intros v _.
    apply framed_K8sDeployment.
  - done.
Qed.

Lemma framed_to_k8s_yaml w0 self ns pa :
  framed w0 (fun _ => True) (to_k8s_yaml self ns pa).
Proof.
  unfold to_k8s_yaml. destruct (String.eqb _ _).
  - eapply framed_bind; [apply framed_worker_deployments|]. intros [|d ws] _.
    + framed_step.
    + eapply framed_bind; [apply framed_get_gateway_yamls|]. intros. by framed_step.
  - eapply framed_bind; [apply framed_head_deployment|]. intros h _.
    eapply framed_bind; [apply framed_worker_deployments|]. intros ws _.
    eapply framed_weaken.
    + apply framed_mapM with (P := fun _ => True). intros [d|]; [|framed_step].
      eapply framed_bind; [apply framed_get_runtime_yamls|]. intros. by framed_step.
    + done.
Qed.

End FrameOfTheCode.

(** ** Running the store operations *)

Section Runs.

Lemma bind_inr {A B} (m : M A) (f : A -> M B) w a w1 :
  m w = (inr a, w1) -> bind m f w = f a w1.
Proof. unfold bind. by intros ->. Qed.

Lemma bind_inl {A B} (m : M A) (f : A -> M B) w e w1 :
  m w = (inl e, w1) -> bind m f w = (inl e, w1).
Proof. unfold bind. by intros ->. Qed.

Lemma attrs_run w l a :
  heap w !! l = Some (ONamespace a) -> attrs l w = (inr a, w).
Proof. intros Hl. unfold attrs, bind, load. by rewrite Hl. Qed.

Lemma items_run w l d :
  heap w !! l = Some (ODict d) -> items l w = (inr d, w).
Proof. intros Hl. unfold items, bind, load. by rewrite Hl. Qed.

Lemma setattr_run w l a f :
  heap w !! l = Some (ONamespace a) ->
  setattr l f w = (inr tt, set_heap (<[l := ONamespace (f a)]> (heap w)) w).
Proof. intros Hl. unfold setattr. by rewrite (bind_inr _ _ _ _ _ (attrs_run _ _ _ Hl)). Qed.

Lemma set_heap_set_heap h h' w : set_heap h (set_heap h' w) = set_heap h w.
Proof. reflexivity. Qed.

Lemma set_heap_grow k w : set_heap (heap w ++ k) w = grow k 0 w.
Proof. reflexivity. Qed.

Lemma grow_grow k1 c1 k2 c2 w : grow k2 c2 (grow k1 c1 w) = grow (k1 ++ k2) (c2 + c1) w.
Proof. unfold grow; simpl. by rewrite (assoc_L (++)), Nat.add_assoc. Qed.

Lemma tick_grow k c w : tick (grow k c w) = grow k (S c) w.
Proof. reflexivity. Qed.

Lemma extends_grow k c w : extends w (grow k c w).
Proof. split; simpl; try done; [by apply prefix_app_r | lia]. Qed.

Lemma copy_copy_run w l a :
  heap w !! l = Some (ONamespace a) ->
  copy_copy l w = (inr (length (heap w)), set_heap (heap w ++ [ONamespace a]) w).
Proof. intros Hl. unfold copy_copy. by rewrite (bind_inr _ _ _ _ _ (attrs_run _ _ _ Hl)). Qed.

Lemma lookup_newest (h : list obj) o : (h ++ [o]) !! length h = Some o.
Proof. by rewrite lookup_app_r, Nat.sub_diag by lia. Qed.

Lemma insert_newest (h : list obj) o o' : <[length h := o']> (h ++ [o]) = h ++ [o'].
Proof. by rewrite insert_app_r_alt, Nat.sub_diag by lia. Qed.

Lemma lookup_older (h k : list obj) l o : h !! l = Some o -> (h ++ k) !! l = Some o.
Proof. intros Hl. by apply lookup_app_l_Some. Qed.

(** Assigning to the newest object. *)
Lemma setattr_newest w h cur f :
  heap w = h ++ [ONamespace cur] ->
  setattr (length h) f w = (inr tt, set_heap (h ++ [ONamespace (f cur)]) w).
Proof.
  intros Hh. rewrite (setattr_run _ _ cur).
  - by rewrite Hh, insert_newest.
  - rewrite Hh. apply lookup_newest.
Qed.

Lemma dict_at_older h k r d : dict_at h r d -> dict_at (h ++ k) r d.
Proof. destruct r, d; simpl; try done. apply lookup_older. Qed.

Lemma rep_older h k l a s : rep h l a s -> rep (h ++ k) l a s.
Proof.
  intros (?&uw&ev&?&?&?). split; [by apply lookup_older|].
  exists uw, ev. split; [by apply dict_at_older|]. split; [by apply dict_at_older|done].
Qed.

Lemma rep_extends w0 w l a s : extends w0 w -> rep (heap w0) l a s -> rep (heap w) l a s.
Proof. intros [[k ->] _ _ _]. apply rep_older. Qed.

Lemma read_dict_run w r d : dict_at (heap w) r d -> read_dict r w = (inr d, w).
Proof.
  destruct r as [l|], d as [d|]; simpl; try done.
  intros Hl. by rewrite (bind_inr _ _ _ _ _ (items_run _ _ _ Hl)).
Qed.

Lemma snapshot_run w l a s : rep (heap w) l a s -> snapshot l w = (inr s, w).
Proof.
  intros (Hl & uw & ev & Hu & He & ->). unfold snapshot.
  rewrite (bind_inr _ _ _ _ _ (attrs_run _ _ _ Hl)).
  rewrite (bind_inr _ _ _ _ _ (read_dict_run _ _ _ Hu)).
  by rewrite (bind_inr _ _ _ _ _ (read_dict_run _ _ _ He)).
Qed.

Lemma read_dict_inv w r d : (read_dict r w).1 = inr d -> dict_at (heap w) r d.
Proof.
  destruct r as [l|]; simpl.
  - unfold bind, items, bind, load. destruct (heap w !! l) as [[a|d']|]; simpl; try done.
    by intros [= <-].
  - by intros [= <-].
Qed.

Lemma read_dict_world w r : (read_dict r w).2 = w.
Proof.
  destruct r as [l|]; simpl; [|done].
  unfold bind, items, bind, load. by destruct (heap w !! l) as [[a|d']|].
Qed.

Lemma snapshot_inv w l s : (snapshot l w).1 = inr s -> exists a, rep (heap w) l a s.
Proof.
  unfold snapshot, bind at 1, attrs, bind at 1, load.
  destruct (heap w !! l) as [[a|d]|] eqn:Hl; simpl; try done.
  unfold bind at 1.
  pose proof (read_dict_inv w (Namespace.uses_with a)) as Hu.
  pose proof (read_dict_world w (Namespace.uses_with a)) as Hw.
  destruct (read_dict (Namespace.uses_with a) w) as [[e|uw] w1]; simpl in *; try done.
  subst w1. unfold bind at 1.
  pose proof (read_dict_inv w (Namespace.env a)) as He.
  destruct (read_dict (Namespace.env a) w) as [[e|ev] w2]; simpl in *; try done.
  intros [= <-]. exists a. split; [done|]. exists uw, ev. auto.
Qed.

Lemma snapshot_world w l : (snapshot l w).2 = w.
Proof.
  unfold snapshot, bind at 1, attrs, bind at 1, load.
  destruct (heap w !! l) as [[a|d]|] eqn:Hl; simpl; try done.
  unfold bind at 1.
  pose proof (read_dict_world w (Namespace.uses_with a)) as Hw.
  destruct (read_dict (Namespace.uses_with a) w) as [[e|uw] w1]; simpl in *; try done.
  subst w1. unfold bind at 1.
  pose proof (read_dict_world w (Namespace.env a)) as Hw.
  by destruct (read_dict (Namespace.env a) w) as [[e|ev] w2].
Qed.

End Runs.

(** Stepping through a run: reads of known objects, assignments to the
    newest object. *)
Ltac wsimpl := cbn [set_heap heap calls registry JINA_K8S_USE_TEST_PIP tick grow].

Ltac lookup_tac :=
  wsimpl;
  first [ eassumption
        | apply lookup_newest
        | apply lookup_older; lookup_tac ].

Ltac run_attrs :=
  erewrite (bind_inr (attrs _)); [| apply attrs_run; lookup_tac].

Ltac run_setattr :=
  erewrite (bind_inr (setattr _ _)); [| apply setattr_newest; reflexivity];
  rewrite ?set_heap_set_heap.

Ltac run_ret := erewrite (bind_inr (ret _)); [| reflexivity].

Ltac run := repeat first [ run_ret | run_attrs | run_setattr ].

(** ** What [_get_deployment_args] builds *)

Section Expansion.
Context `{Imports}.

Lemma head_of_with_dicts {D E} self (uw ev : option E) (a : Namespace.t D) :
  head_of self (Namespace.with_dicts uw ev a) = Namespace.with_dicts uw ev (head_of self a).
Proof.
  unfold head_of; simpl.
  destruct (Namespace.k8s_connection_pool a), (is_set (Namespace.uses_before a)),
    (is_set (Namespace.uses_after a)); reflexivity.
Qed.

Lemma worker_of_with_dicts {D E} i (uw ev : option E) (a : Namespace.t D) :
  worker_of (Namespace.with_dicts uw ev a) i = Namespace.with_dicts uw ev (worker_of a i).
Proof. unfold worker_of; simpl. destruct (String.eqb _ _); reflexivity. Qed.

(** A Pod that is not the gateway: the head is a new object. *)
Lemma get_deployment_args_head self args w a :
  heap w !! args = Some (ONamespace a) ->
  String.eqb (Namespace.name a) "gateway" = false ->
  _get_deployment_args self args w =
    (ds <- mapM (shard_args args) (range (default 1 (Namespace.shards a)));;
     ret (ParsedArgs.mk (Some (length (heap w))) ds))
      (set_heap (heap w ++ [ONamespace (head_of self a)]) w).
Proof.
  intros Hl Hn. unfold _get_deployment_args.
  run_attrs. run_attrs. rewrite Hn. simpl negb. cbv iota.
  erewrite (bind_inr (bind (copy_copy _) _)).
  2: { erewrite (bind_inr (copy_copy _)); [|apply copy_copy_run; lookup_tac].
       do 4 run_setattr. run_attrs.
       instantiate (1 := set_heap (heap w ++ [ONamespace
         (if Namespace.k8s_connection_pool a
          then Namespace.set_port_in (Some K8S_PORT_IN)
              (Namespace.set_pea_role (Some HEAD)
                 (Namespace.set_runtime_cls (Some "HeadRuntime")
                    (Namespace.set_replicas (Some 1) a)))
          else Namespace.set_connection_list
                 (Some (connection_list_text self (default 1 (Namespace.shards a))))
                 (Namespace.set_port_in (Some K8S_PORT_IN)
              (Namespace.set_pea_role (Some HEAD)
                 (Namespace.set_runtime_cls (Some "HeadRuntime")
                    (Namespace.set_replicas (Some 1) a)))))]) w).
       destruct (Namespace.k8s_connection_pool a); simpl negb; cbv iota.
       - reflexivity.
       - run_setattr. reflexivity. }
  unfold head_of.
  destruct (Namespace.k8s_connection_pool a);
    destruct (is_set (Namespace.uses_before a)); cbv iota zeta; run;
    destruct (is_set (Namespace.uses_after a)); cbv iota zeta; run; reflexivity.
Qed.

(** The gateway: no head; setting the address of a filter on it fails. *)
Lemma get_deployment_args_gateway self args w a :
  heap w !! args = Some (ONamespace a) ->
  String.eqb (Namespace.name a) "gateway" = true ->
  _get_deployment_args self args w =
    if (is_set (Namespace.uses_before a) || is_set (Namespace.uses_after a))%bool
    then (inl AttributeError, w)
    else (ds <- mapM (shard_args args) (range (default 1 (Namespace.shards a)));;
          ret (ParsedArgs.mk None ds)) w.
Proof.
  intros Hl Hn. unfold _get_deployment_args.
  run_attrs. run_attrs. rewrite Hn. simpl negb. cbv iota.
  erewrite (bind_inr (ret _)); [|reflexivity].
  destruct (is_set (Namespace.uses_before a)); simpl orb; cbv iota.
  - reflexivity.
  - erewrite (bind_inr (ret _)); [|reflexivity].
    destruct (is_set (Namespace.uses_after a)); reflexivity.
Qed.

(** [deepcopy] allocates the copies of the dictionaries, then the copy of the
    namespace. *)
Lemma deepcopy_run l w a uw ev :
  heap w !! l = Some (ONamespace a) ->
  dict_at (heap w) (Namespace.uses_with a) uw ->
  dict_at (heap w) (Namespace.env a) ev ->
  exists k ruw rev,
    deepcopy l w =
      (inr (length (heap w ++ k)),
       set_heap ((heap w ++ k) ++ [ONamespace (Namespace.with_dicts ruw rev a)]) w)
    /\ dict_at (heap w ++ k) ruw uw
    /\ dict_at (heap w ++ k) rev ev
    /\ Forall (fun x => length (heap w) <= x < length (heap w ++ k))%nat
         (option_list ruw ++ option_list rev).
Proof.
  intros Hl Hu He. unfold deepcopy. run_attrs.
  destruct (Namespace.uses_with a) as [l1|] eqn:E1, uw as [d1|]; simpl in Hu; try done.
  - unfold deepcopy_dict at 1.
    erewrite (bind_inr (bind (items _) _)).
    2: { erewrite (bind_inr (items _)); [|by apply items_run].
         erewrite (bind_inr (new _)); [|reflexivity]. reflexivity. }
    case_decide as Ed.
    + rewrite Ed in He. destruct ev as [d2|]; simpl in He; [|done].
      assert (d2 = d1) as -> by congruence.
      run_ret. exists [ODict d1], (Some (length (heap w))), (Some (length (heap w))).
      split; [reflexivity|]. simpl.
      split; [apply lookup_newest|]. split; [apply lookup_newest|].
      rewrite length_app. simpl. repeat constructor; lia.
    + destruct (Namespace.env a) as [l2|] eqn:E2, ev as [d2|]; simpl in He; try done.
      * unfold deepcopy_dict.
        erewrite (bind_inr (bind (items _) _)).
        2: { erewrite (bind_inr (items _)); [|apply items_run; lookup_tac].
             erewrite (bind_inr (new _)); [|reflexivity]. reflexivity. }
        exists [ODict d1; ODict d2], (Some (length (heap w))),
          (Some (length (heap w ++ [ODict d1]))).
        unfold new. wsimpl. rewrite <- !(assoc_L (++)). simpl.
        split; [reflexivity|].
        split; [simpl; by apply list_lookup_middle|].
        split; [change (heap w ++ [ODict d1; ODict d2])
                  with (heap w ++ [ODict d1] ++ [ODict d2]);
                rewrite (assoc_L (++)); apply lookup_newest|].
        rewrite !length_app. simpl. repeat constructor; lia.
      * simpl. run_ret. exists [ODict d1], (Some (length (heap w))), None.
        split; [reflexivity|]. simpl.
        split; [apply lookup_newest|]. split; [done|].
        rewrite length_app. simpl. repeat constructor; lia.
  - simpl deepcopy_dict at 1. run_ret.
    case_decide as Ed.
    + rewrite Ed in He. destruct ev as [d2|]; simpl in He; [done|].
      run_ret. exists [], None, None. rewrite app_nil_r.
      split; [reflexivity|]. simpl. by repeat split.
    + destruct (Namespace.env a) as [l2|] eqn:E2, ev as [d2|]; simpl in He; try done.
      unfold deepcopy_dict.
      erewrite (bind_inr (bind (items _) _)).
      2: { erewrite (bind_inr (items _)); [|by apply items_run].
           erewrite (bind_inr (new _)); [|reflexivity]. reflexivity. }
      exists [ODict d2], None, (Some (length (heap w))).
      split; [reflexivity|]. simpl.
      split; [done|]. split; [apply lookup_newest|].
      rewrite length_app. simpl. repeat constructor; lia.
Qed.

(** One round of the loop: a deep copy of the Pod's namespace, made for
    shard [i]; every location it can reach is new. *)
Lemma shard_args_run args i w a s :
  rep (heap w) args a s ->
  exists c k ac,
    shard_args args i w = (inr c, set_heap (heap w ++ k) w)
    /\ rep (heap w ++ k) c ac (worker_of s i)
    /\ Forall (fun x => length (heap w) <= x < length (heap w ++ k))%nat
         (c :: option_list (Namespace.uses_with ac) ++ option_list (Namespace.env ac)).
Proof.
  intros (Hl & uw & ev & Hu & He & ->).
  destruct (deepcopy_run args w a uw ev Hl Hu He) as (k0 & ruw & rev & Hd & Hru & Hre & Hf).
  exists (length (heap w ++ k0)), (k0 ++ [ONamespace (worker_of (Namespace.with_dicts ruw rev a) i)]),
    (worker_of (Namespace.with_dicts ruw rev a) i).
  rewrite (assoc_L (++)).
  split; [|split].
  - unfold shard_args. erewrite (bind_inr (deepcopy _)); [|exact Hd].
    run. unfold worker_of. simpl Namespace.name.
    destruct (String.eqb (Namespace.name a) "gateway"); run; reflexivity.
  - split; [apply lookup_newest|]. exists uw, ev.
    rewrite !worker_of_with_dicts. simpl.
    split; [by apply dict_at_older|]. split; [by apply dict_at_older|]. reflexivity.
  - rewrite worker_of_with_dicts. simpl.
    rewrite !length_app in *. simpl. constructor; [lia|].
    eapply Forall_impl; [exact Hf|]. simpl. lia.
Qed.

Lemma reach_rep h c ac s :
  rep h c ac s ->
  reach h c = c :: option_list (Namespace.uses_with ac) ++ option_list (Namespace.env ac).
Proof. intros [Hl _]. unfold reach. by rewrite Hl. Qed.

Lemma chain_bounds h s lo hi js cs : chain h s lo hi js cs -> (lo <= hi)%nat.
Proof.
  revert lo cs. induction js as [|i js IH]; intros lo [|c cs]; simpl; try done.
  intros (mid & ac & Hr & Hf & Hc). apply IH in Hc.
  rewrite (reach_rep _ _ _ _ Hr) in Hf. apply Forall_cons in Hf as [? _]. lia.
Qed.

Lemma chain_length h s lo hi js cs : chain h s lo hi js cs -> length cs = length js.
Proof.
  revert lo cs. induction js as [|i js IH]; intros lo [|c cs]; simpl; try done.
  intros (mid & ac & Hr & Hf & Hc). f_equal. by eapply IH.
Qed.

Lemma chain_lookup h s lo hi js cs n i c :
  chain h s lo hi js cs -> js !! n = Some i -> cs !! n = Some c ->
  exists lo' hi' ac,
    rep h c ac (worker_of s i)
    /\ Forall (fun x => lo' <= x < hi')%nat (reach h c)
    /\ (lo <= lo')%nat /\ (hi' <= hi)%nat
    /\ chain h s hi' hi (drop (S n) js) (drop (S n) cs).
Proof.
  revert lo cs n. induction js as [|i0 js IH]; intros lo [|c0 cs] n; simpl; try done.
  intros (mid & ac & Hr & Hf & Hc). destruct n as [|n]; simpl.
  - intros [= ->] [= ->]. exists lo, mid, ac. rewrite !drop_0.
    split; [done|]. split; [done|]. split; [lia|]. split; [|done].
    by eapply chain_bounds.
  - intros Hi Hc'. destruct (IH _ _ _ Hc Hi Hc') as (lo' & hi' & ac' & ? & ? & ? & ? & ?).
    exists lo', hi', ac'. split; [done|]. split; [done|]. split; [|done].
    rewrite (reach_rep _ _ _ _ Hr) in Hf. apply Forall_cons in Hf as [? _]. lia.
Qed.


Lemma chain_older h k s lo hi js cs : chain h s lo hi js cs -> chain (h ++ k) s lo hi js cs.
Proof.
  revert lo cs. induction js as [|i js IH]; intros lo [|c cs]; simpl; try done.
  intros (mid & ac & Hr & Hf & Hc). exists mid, ac.
  split; [by apply rep_older|]. split; [|by apply IH].
  rewrite (reach_rep _ _ _ _ Hr) in Hf.
  by rewrite (reach_rep _ _ _ _ (rep_older _ k _ _ _ Hr)).
Qed.

(** The loop over the shards. *)
Lemma mapM_shard_args args js w a s :
  rep (heap w) args a s ->
  exists cs k,
    mapM (shard_args args) js w = (inr cs, set_heap (heap w ++ k) w)
    /\ chain (heap w ++ k) s (length (heap w)) (length (heap w ++ k)) js cs.
Proof.
  revert w. induction js as [|i js IH]; intros w Hr.
  - exists [], []. rewrite app_nil_r. split; [by destruct w|]. simpl. lia.
  - destruct (shard_args_run args i w a s Hr) as (c & k1 & ac & Hrun & Hc & Hf).
    destruct (IH (set_heap (heap w ++ k1) w)) as (cs & k2 & Hrun2 & Hch).
    { by apply rep_older. }
    simpl heap in *. rewrite set_heap_set_heap in Hrun2.
    exists (c :: cs), (k1 ++ k2). rewrite (assoc_L (++)). split.
    + simpl. erewrite (bind_inr (shard_args _ _)); [|exact Hrun].
      erewrite (bind_inr (mapM _ _)); [|exact Hrun2]. reflexivity.
    + simpl. exists (length (heap w ++ k1)), ac.
      split; [by apply rep_older|]. split; [|done].
      by rewrite (reach_rep _ _ _ _ (rep_older _ k2 _ _ _ Hc)).
Qed.

(** [_get_deployment_args] for a Pod that is not the gateway: a new head and
    the workers of the shards, allocated after it. *)
Lemma get_deployment_args_pod self args w a s :
  rep (heap w) args a s ->
  String.eqb (Namespace.name s) "gateway" = false ->
  exists cs k ah,
    _get_deployment_args self args w =
      (inr (ParsedArgs.mk (Some (length (heap w))) cs), grow k 0 w)
    /\ rep (heap w ++ k) (length (heap w)) ah (head_of self s)
    /\ Namespace.uses_with ah = Namespace.uses_with a
    /\ Namespace.env ah = Namespace.env a
    /\ chain (heap w ++ k) s (S (length (heap w))) (length (heap w ++ k))
         (range (default 1 (Namespace.shards s))) cs.
Proof.
  intros Hr Hn. pose proof Hr as (Hl & uw & ev & Hu & He & ->). simpl in Hn.
  rewrite (get_deployment_args_head self args w a Hl Hn).
  destruct (mapM_shard_args args (range (default 1 (Namespace.shards a)))
              (set_heap (heap w ++ [ONamespace (head_of self a)]) w) a
              (Namespace.with_dicts uw ev a)) as (cs & k & Hrun & Hch).
  { by apply rep_older. }
  simpl heap in *. rewrite set_heap_set_heap in Hrun.
  exists cs, (ONamespace (head_of self a) :: k), (head_of self a).
  replace (heap w ++ ONamespace (head_of self a) :: k)
    with ((heap w ++ [ONamespace (head_of self a)]) ++ k)
    by (by rewrite <- (assoc_L (++))).
  split; [|split; [|split; [|split]]].
  - erewrite (bind_inr (mapM _ _)); [|exact Hrun].
    unfold ret, grow. f_equal. f_equal. by rewrite <- (assoc_L (++)).
  - apply rep_older. split; [apply lookup_newest|]. exists uw, ev.
    rewrite head_of_with_dicts.
    assert (Namespace.uses_with (head_of self a) = Namespace.uses_with a
            /\ Namespace.env (head_of self a) = Namespace.env a) as [-> ->].
    { unfold head_of.
      destruct (Namespace.k8s_connection_pool a), (is_set (Namespace.uses_before a)),
        (is_set (Namespace.uses_after a)); by split. }
    split; [by apply dict_at_older|]. split; [by apply dict_at_older|]. reflexivity.
  - unfold head_of.
    destruct (Namespace.k8s_connection_pool a), (is_set (Namespace.uses_before a)),
      (is_set (Namespace.uses_after a)); reflexivity.
  - unfold head_of.
    destruct (Namespace.k8s_connection_pool a), (is_set (Namespace.uses_before a)),
      (is_set (Namespace.uses_after a)); reflexivity.
  - rewrite length_app in Hch. simpl in Hch. by rewrite Nat.add_1_r in Hch.
Qed.

(** [_get_deployment_args] for the gateway when no filter is set: no head,
    and the workers of the shards. *)
Lemma get_deployment_args_gateway_ok self args w a s :
  rep (heap w) args a s ->
  String.eqb (Namespace.name s) "gateway" = true ->
  is_set (Namespace.uses_before s) = false ->
  is_set (Namespace.uses_after s) = false ->
  exists cs k,
    _get_deployment_args self args w = (inr (ParsedArgs.mk None cs), grow k 0 w)
    /\ chain (heap w ++ k) s (length (heap w)) (length (heap w ++ k))
         (range (default 1 (Namespace.shards s))) cs.
Proof.
  intros Hr Hn Hb Ha. pose proof Hr as (Hl & uw & ev & Hu & He & ->). simpl in *.
  rewrite (get_deployment_args_gateway self args w a Hl Hn), Hb, Ha. simpl.
  destruct (mapM_shard_args args (range (default 1 (Namespace.shards a))) w a
              (Namespace.with_dicts uw ev a) Hr) as (cs & k & Hrun & Hch).
  exists cs, k. split; [|done].
  erewrite (bind_inr (mapM _ _)); [|exact Hrun]. reflexivity.
Qed.

(** [_get_deployment_args] for the gateway when a filter is set. *)
Lemma get_deployment_args_gateway_fails self args w a s :
  rep (heap w) args a s ->
  String.eqb (Namespace.name s) "gateway" = true ->
  (is_set (Namespace.uses_before s) || is_set (Namespace.uses_after s))%bool = true ->
  _get_deployment_args self args w = (inl AttributeError, w).
Proof.
  intros Hr Hn Hb. pose proof Hr as (Hl & uw & ev & Hu & He & ->). simpl in *.
  by rewrite (get_deployment_args_gateway self args w a Hl Hn), Hb.
Qed.

End Expansion.

(** ** Descriptors and their rendering *)

Section Rendering.
Context `{Imports}.

Lemma get_base_executor_version_run w tags :
  registry w (calls w) = inr tags ->
  _get_base_executor_version w = (inr (pick_version tags), tick w).
Proof.
  intros Hr. unfold _get_base_executor_version, bind, requests_get_tags.
  rewrite Hr. unfold pick_version. by destruct (existsb _ _).
Qed.

Lemma get_base_executor_version_fails w e :
  registry w (calls w) = inl e ->
  _get_base_executor_version w = (inl e, tick w).
Proof.
  intros Hr. unfold _get_base_executor_version, bind, requests_get_tags.
  by rewrite Hr.
Qed.

Lemma K8sDeployment_run n p v t j sid c l w a :
  heap w !! l = Some (ONamespace a) ->
  _K8sDeployment n p v t j sid c (Some l) w =
    (inr (K8sDeployment.mk n (to_dns_name n) p v t j sid c (Some l)
            (default 1 (Namespace.replicas a)) None), w).
Proof.
  intros Hl. unfold _K8sDeployment.
  erewrite (bind_inr (bind (attrs _) _)); [reflexivity|].
  run_attrs. reflexivity.
Qed.

Lemma get_image_name_run d u w :
  _get_image_name d u w =
    (inr (image_name_of (K8sDeployment.version d) (JINA_K8S_USE_TEST_PIP w) u), w).
Proof.
  unfold _get_image_name, image_name_of. by destruct (String.eqb _ _).
Qed.

Lemma get_runtime_yamls_run d ns w l a da ac ca :
  K8sDeployment.deployment_args d = Some l ->
  rep (heap w) l a da ->
  rep (heap w) (K8sDeployment.common_args d) ac ca ->
  get_runtime_yamls d ns w =
    (inr (runtime_yamls d da ca (JINA_K8S_USE_TEST_PIP w) ns), w).
Proof.
  intros Hd Hda Hca. unfold get_runtime_yamls. rewrite Hd.
  erewrite (bind_inr (snapshot _)); [|by eapply snapshot_run].
  erewrite (bind_inr (_get_image_name _ _)); [|apply get_image_name_run].
  unfold runtime_yamls.
  destruct (is_set (Namespace.uses_before da)).
  - erewrite (bind_inr (bind (_get_image_name _ _) _)).
    2: { erewrite (bind_inr (_get_image_name _ _)); [|apply get_image_name_run].
         reflexivity. }
    destruct (is_set (Namespace.uses_after da)).
    + erewrite (bind_inr (bind (_get_image_name _ _) _)).
      2: { erewrite (bind_inr (_get_image_name _ _)); [|apply get_image_name_run].
           reflexivity. }
      erewrite (bind_inr (snapshot _)); [|by eapply snapshot_run]. reflexivity.
    + run_ret.
      erewrite (bind_inr (snapshot _)); [|by eapply snapshot_run]. reflexivity.
  - run_ret. destruct (is_set (Namespace.uses_after da)).
    + erewrite (bind_inr (bind (_get_image_name _ _) _)).
      2: { erewrite (bind_inr (_get_image_name _ _)); [|apply get_image_name_run].
           reflexivity. }
      erewrite (bind_inr (snapshot _)); [|by eapply snapshot_run]. reflexivity.
    + run_ret.
      erewrite (bind_inr (snapshot _)); [|by eapply snapshot_run]. reflexivity.
Qed.

Lemma get_gateway_yamls_run d ns pa w ac ca :
  rep (heap w) (K8sDeployment.common_args d) ac ca ->
  exists o,
    get_gateway_yamls d ns pa w =
      (inr (gateway_yamls d ca (JINA_K8S_USE_TEST_PIP w) ns pa), grow [o] 0 w).
Proof.
  intros Hr. pose proof Hr as (Hl & uw & ev & Hu & He & ->).
  unfold get_gateway_yamls.
  erewrite (bind_inr getenv_test_pip); [|reflexivity].
  erewrite (bind_inr (copy_copy _)); [|by apply copy_copy_run].
  run_attrs.
  exists (ONamespace (Namespace.set_pods_addresses
            (if Namespace.k8s_connection_pool ac then Some [] else pa) ac)).
  assert (forall v,
    rep (heap w ++ [ONamespace (Namespace.set_pods_addresses v ac)])
      (length (heap w)) (Namespace.set_pods_addresses v ac)
      (Namespace.set_pods_addresses v (Namespace.with_dicts uw ev ac))) as Hrep.
  { intros v. split; [apply lookup_newest|]. exists uw, ev. simpl.
    split; [by apply dict_at_older|]. split; [by apply dict_at_older|]. reflexivity. }
  unfold gateway_yamls. simpl Namespace.k8s_connection_pool.
  destruct (Namespace.k8s_connection_pool ac); run_setattr;
    (erewrite (bind_inr (snapshot _)); [|eapply snapshot_run; apply Hrep]);
    reflexivity.
Qed.

Lemma rep_replicas h l a s : rep h l a s -> Namespace.replicas a = Namespace.replicas s.
Proof. by intros (_ & uw & ev & _ & _ & ->). Qed.

Lemma head_of_replicas {D} self (s : Namespace.t D) :
  Namespace.replicas (head_of self s) = Some 1.
Proof.
  unfold head_of.
  by destruct (Namespace.k8s_connection_pool s), (is_set (Namespace.uses_before s)),
    (is_set (Namespace.uses_after s)).
Qed.

Lemma worker_of_replicas {D} (s : Namespace.t D) i :
  Namespace.replicas (worker_of s i) = Namespace.replicas s.
Proof. unfold worker_of. by destruct (String.eqb _ _). Qed.

(** The property [head_deployment] of a Pod that is not the gateway. *)
Lemma head_deployment_pod self w a s tags :
  rep (heap w) (PodConfig.args self) a s ->
  String.eqb (Namespace.name s) "gateway" = false ->
  registry w (calls w) = inr tags ->
  exists k h ah,
    head_deployment self w =
      (inr (Some (head_descriptor self (pick_version tags) h)), grow k 1 w)
    /\ rep (heap w ++ k) h ah (head_of self s).
Proof.
  intros Hr Hn Ht.
  destruct (get_deployment_args_pod self _ w a s Hr Hn)
    as (cs1 & k1 & ah1 & Hrun1 & _).
  destruct (get_deployment_args_pod self (PodConfig.args self) (grow k1 1 w) a s)
    as (cs2 & k2 & ah2 & Hrun2 & Hh2 & _); [by apply rep_older | done |].
  simpl heap in *. rewrite grow_grow in Hrun2. simpl in Hrun2.
  exists (k1 ++ k2), (length (heap w ++ k1)), ah2.
  rewrite (assoc_L (++)). split; [|done].
  unfold head_deployment.
  erewrite (bind_inr (_get_deployment_args _ _)); [|exact Hrun1]. simpl.
  erewrite (bind_inr _get_base_executor_version);
    [|by apply get_base_executor_version_run].
  rewrite tick_grow.
  erewrite (bind_inr (_get_deployment_args _ _)); [|exact Hrun2]. simpl.
  erewrite (bind_inr (_K8sDeployment _ _ _ _ _ _ _ _)).
  2: { apply K8sDeployment_run. simpl. rewrite (assoc_L (++)). apply Hh2. }
  by rewrite (rep_replicas _ _ _ _ Hh2), head_of_replicas.
Qed.

(** The loop of [worker_deployments], over the workers [cs] counted from
    [off]. *)
Lemma mapM_workers self n r cs : forall off w,
  (forall q c, cs !! q = Some c ->
     exists ac, heap w !! c = Some (ONamespace ac)
                /\ default 1 (Namespace.replicas ac) = r) ->
  registry_answers w (calls w) (length cs) ->
  mapM (fun '(i, args) =>
          let name := if (1 <? n)%nat then PodConfig.name self +:+ "-" +:+ str i
                      else PodConfig.name self in
          version <- _get_base_executor_version;;
          _K8sDeployment name K8S_PORT_IN version "worker" (PodConfig.name self)
            (Some i) (PodConfig.args self) (Some args))
       (combine (map Z.of_nat (seq off (length cs))) cs) w =
    (inr (imap (fun q c => worker_descriptor self n r (version_at w (q + calls w))
                             (Z.of_nat (off + q)) c) cs),
     ticks (length cs) w).
Proof.
  induction cs as [|c cs IH]; intros off w Hcs Hreg.
  - by destruct w.
  - simpl length. simpl seq. simpl map. simpl combine. simpl mapM.
    destruct (Hreg 0%nat) as [tags Ht]; [simpl; lia|]. simpl in Ht.
    destruct (Hcs 0%nat c eq_refl) as (ac & Hc & Hrep).
    erewrite (bind_inr (bind _get_base_executor_version _)).
    2: { erewrite (bind_inr _get_base_executor_version);
           [|by apply get_base_executor_version_run].
         by apply K8sDeployment_run. }
    erewrite (bind_inr (mapM _ _)).
    2: { apply (IH (S off) (tick w)).
         - intros q c' Hq. apply (Hcs (S q) c' Hq).
         - intros q Hq. destruct (Hreg (S q)) as [t' Ht']; [simpl; lia|].
           exists t'. simpl. rewrite <- Ht'. f_equal. lia. }
    unfold ret. f_equal.
    + f_equal. simpl. f_equal.
      * unfold worker_descriptor, worker_name, version_at.
        rewrite Nat.add_0_r. simpl. rewrite Ht, Hrep. reflexivity.
      * apply imap_ext. intros q c' _. simpl.
        unfold worker_descriptor, version_at. simpl.
        rewrite !Nat.add_succ_r. reflexivity.
    + unfold ticks; simpl. f_equal. lia.
Qed.

Lemma length_range n : length (range n) = Z.to_nat n.
Proof. unfold range. by rewrite length_map, length_seq. Qed.

Lemma lookup_range n q : (q < Z.to_nat n)%nat -> range n !! q = Some (Z.of_nat q).
Proof.
  intros Hq. unfold range. rewrite list_lookup_fmap, lookup_seq_lt by done.
  reflexivity.
Qed.

(** The property [worker_deployments], once [_get_deployment_args] has built
    the workers [cs]. *)
Lemma worker_deployments_run self w s hd cs k lo hi js :
  _get_deployment_args self (PodConfig.args self) w =
    (inr (ParsedArgs.mk hd cs), grow k 0 w) ->
  chain (heap w ++ k) s lo hi js cs ->
  registry_answers w (calls w) (length cs) ->
  worker_deployments self w =
    (inr (imap (fun q c =>
                  worker_descriptor self (length cs)
                    (default 1 (Namespace.replicas s))
                    (version_at w (q + calls w)) (Z.of_nat q) c) cs),
     grow k (length cs) w).
Proof.
  intros Hrun Hch Hreg. unfold worker_deployments.
  erewrite (bind_inr (_get_deployment_args _ _)); [|exact Hrun].
  cbn [ParsedArgs.deployments].
  unfold enumerate, range. rewrite Nat2Z.id.
  etrans;
    [apply (mapM_workers self (length cs) (default 1 (Namespace.replicas s)) cs 0
              (grow k 0 w))|].
  3: reflexivity.
  - intros q c Hq.
    assert (is_Some (js !! q)) as [i Hi].
    { apply lookup_lt_is_Some. rewrite <- (chain_length _ _ _ _ _ _ Hch).
      by eapply lookup_lt_Some. }
    destruct (chain_lookup _ _ _ _ _ _ _ _ _ Hch Hi Hq) as (_ & _ & ac & Hr & _).
    exists ac. split; [apply Hr|].
    by rewrite (rep_replicas _ _ _ _ Hr), worker_of_replicas.
  - exact Hreg.
Qed.

(** Rendering a list of worker descriptors, in a world where the namespace
    of each is known. *)
Lemma mapM_render w ns a s args cs :
  rep (heap w) args a s ->
  forall (g : nat -> loc -> K8sDeployment.t) (das : nat -> Namespace.t dict),
  (forall q c, cs !! q = Some c ->
     K8sDeployment.deployment_args (g q c) = Some c
     /\ K8sDeployment.common_args (g q c) = args
     /\ exists ac, rep (heap w) c ac (das q)) ->
  mapM (fun deployment =>
          match deployment with
          | Some d => y <- get_runtime_yamls d ns;; ret (K8sDeployment.name d, y)
          | None => raise AttributeError
          end)
       (map Some (imap g cs)) w =
    (inr (imap (fun q c =>
                  (K8sDeployment.name (g q c),
                   runtime_yamls (g q c) (das q) s (JINA_K8S_USE_TEST_PIP w) ns)) cs),
     w).
Proof.
  intros Hr. induction cs as [|c cs IH]; intros g das Hcs; [done|].
  simpl. destruct (Hcs 0%nat c eq_refl) as (Hd & Hc & ac & Hrc).
  erewrite (bind_inr (bind (get_runtime_yamls _ _) _)).
  2: { erewrite (bind_inr (get_runtime_yamls _ _)).
       2: { eapply get_runtime_yamls_run; [exact Hd|exact Hrc|]. rewrite Hc. exact Hr. }
       reflexivity. }
  erewrite (bind_inr (mapM _ _)).
  2: { apply (IH (g ∘ S) (das ∘ S)). intros q c' Hq. apply (Hcs (S q) c' Hq). }
  reflexivity.
Qed.

Lemma imap_seq_const {A B} (f : nat -> A -> B) (g : nat -> B) (l : list A) :
  (forall q c, f q c = g q) -> imap f l = map g (seq 0 (length l)).
Proof.
  revert f g. induction l as [|x l IH]; intros f g Hfg; [done|].
  simpl. f_equal; [apply Hfg|]. rewrite <- seq_shift, map_map.
  apply IH. intros q c. apply Hfg.
Qed.

End Rendering.

(** ** What [to_k8s_yaml] returns *)

Section Resolve.
Context `{Imports}.

Lemma chain_workers h s lo hi n cs q c :
  chain h s lo hi (range n) cs -> cs !! q = Some c ->
  exists ac, rep h c ac (worker_of s (Z.of_nat q)).
Proof.
  intros Hch Hq.
  assert (q < Z.to_nat n)%nat as Hlt.
  { rewrite <- length_range, <- (chain_length _ _ _ _ _ _ Hch).
    by eapply lookup_lt_Some. }
  destruct (chain_lookup _ _ _ _ _ _ _ _ _ Hch (lookup_range n q Hlt) Hq)
    as (_ & _ & ac & Hr & _).
  by exists ac.
Qed.

Lemma version_at_grow k c w q : version_at (grow k c w) q = version_at w q.
Proof. reflexivity. Qed.

Lemma to_k8s_yaml_pod self ns pa w a s :
  rep (heap w) (PodConfig.args self) a s ->
  String.eqb (PodConfig.name self) "gateway" = false ->
  String.eqb (Namespace.name s) "gateway" = false ->
  registry_answers w (calls w) (S (shard_count s)) ->
  exists k,
    to_k8s_yaml self ns pa w =
      (inr (pod_yamls self s (JINA_K8S_USE_TEST_PIP w) ns
              (fun q => version_at w (q + calls w))),
       grow k (S (shard_count s)) w).
Proof.
  intros Hr Hself Hn Hreg.
  destruct (Hreg 0%nat) as [tags Ht]; [lia|]. simpl in Ht.
  destruct (head_deployment_pod self w a s tags Hr Hn Ht) as (k1 & h & ah & Hhead & Hh).
  destruct (get_deployment_args_pod self (PodConfig.args self) (grow k1 1 w) a s)
    as (cs & k2 & ah2 & Hrun2 & _ & _ & _ & Hch); [by apply rep_older | done |].
  simpl heap in Hch.
  assert (length cs = shard_count s) as Hlen.
  { by rewrite (chain_length _ _ _ _ _ _ Hch), length_range. }
  pose proof (worker_deployments_run self (grow k1 1 w) s _ cs k2 _ _ _ Hrun2 Hch) as Hw.
  exists (k1 ++ k2).
  unfold to_k8s_yaml. rewrite Hself.
  erewrite (bind_inr (head_deployment _)); [|exact Hhead].
  erewrite (bind_inr (worker_deployments _)).
  2: { apply Hw. intros q Hq. destruct (Hreg (S q)) as [t' Ht']; [lia|].
       exists t'. simpl. rewrite <- Ht'. f_equal. lia. }
  rewrite grow_grow. simpl map. simpl mapM.
  erewrite (bind_inr (bind (get_runtime_yamls _ _) _)).
  2: { erewrite (bind_inr (get_runtime_yamls _ _)).
       2: { eapply get_runtime_yamls_run; [reflexivity| |].
            - simpl. rewrite (assoc_L (++)). apply rep_older. exact Hh.
            - simpl. rewrite (assoc_L (++)). do 2 apply rep_older. exact Hr. }
       reflexivity. }
  erewrite (bind_inr (mapM _ _)).
  2: { eapply (mapM_render _ ns a s (PodConfig.args self) cs)
         with (das := fun q => worker_of s (Z.of_nat q)).
       - simpl. rewrite (assoc_L (++)). do 2 apply rep_older. exact Hr.
       - intros q c Hq. split; [done|]. split; [done|].
         simpl. rewrite (assoc_L (++)).
         by eapply chain_workers. }
  unfold ret, pod_yamls. rewrite Hlen. f_equal; [|f_equal; lia]. f_equal. f_equal.
  - unfold version_at. simpl. by rewrite Ht.
  - rewrite <- Hlen. apply imap_seq_const. intros q c. rewrite Hlen.
    rewrite version_at_grow. simpl calls.
    replace (q + S (calls w))%nat with (S q + calls w)%nat by lia.
    reflexivity.
Qed.

(** [_get_deployment_args] builds the workers whenever it does not fail. *)
Lemma get_deployment_args_workers self args w a s :
  rep (heap w) args a s ->
  (String.eqb (Namespace.name s) "gateway"
   && (is_set (Namespace.uses_before s) || is_set (Namespace.uses_after s)))%bool
    = false ->
  exists hd cs k lo,
    _get_deployment_args self args w = (inr (ParsedArgs.mk hd cs), grow k 0 w)
    /\ chain (heap w ++ k) s lo (length (heap w ++ k))
         (range (default 1 (Namespace.shards s))) cs
    /\ (hd = None <-> String.eqb (Namespace.name s) "gateway" = true).
Proof.
  intros Hr Hc. destruct (String.eqb (Namespace.name s) "gateway") eqn:Hn.
  - simpl in Hc. apply orb_false_iff in Hc as [Hb Ha].
    destruct (get_deployment_args_gateway_ok self args w a s Hr Hn Hb Ha)
      as (cs & k & Hrun & Hch).
    by exists None, cs, k, (length (heap w)).
  - destruct (get_deployment_args_pod self args w a s Hr Hn)
      as (cs & k & ah & Hrun & _ & _ & _ & Hch).
    exists (Some (length (heap w))), cs, k, (S (length (heap w))).
    split; [done|]. split; [done|]. by split.
Qed.

Lemma to_k8s_yaml_gateway self ns pa w a s :
  rep (heap w) (PodConfig.args self) a s ->
  String.eqb (PodConfig.name self) "gateway" = true ->
  registry_answers w (calls w) (shard_count s) ->
  (to_k8s_yaml self ns pa w).1 =
    resolve_outcome self s (JINA_K8S_USE_TEST_PIP w) ns pa
      (fun q => version_at w (q + calls w)).
Proof.
  intros Hr Hself Hreg. unfold to_k8s_yaml, resolve_outcome. rewrite Hself.
  destruct (String.eqb (Namespace.name s) "gateway"
            && (is_set (Namespace.uses_before s) || is_set (Namespace.uses_after s)))%bool
    eqn:Hc.
  - apply andb_true_iff in Hc as [Hn Hf].
    unfold worker_deployments.
    erewrite (bind_inl (bind (_get_deployment_args _ _) _)); [done|].
    erewrite (bind_inl (_get_deployment_args _ _)); [done|].
    by eapply get_deployment_args_gateway_fails.
  - destruct (get_deployment_args_workers self _ w a s Hr Hc)
      as (hd & cs & k & lo & Hrun & Hch & _).
    assert (length cs = shard_count s) as Hlen.
    { by rewrite (chain_length _ _ _ _ _ _ Hch), length_range. }
    erewrite (bind_inr (worker_deployments _)).
    2: { eapply worker_deployments_run; [exact Hrun|exact Hch|]. by rewrite Hlen. }
    rewrite <- Hlen. destruct cs as [|c cs]; [done|]. simpl.
    edestruct (get_gateway_yamls_run
                 (worker_descriptor self (S (length cs))
                    (default 1 (Namespace.replicas s))
                    (version_at w (0 + calls w)) 0 c) ns pa
                 (grow k (S (length cs)) w)) as [o Hg].
    { simpl. apply rep_older. exact Hr. }
    erewrite (bind_inr (get_gateway_yamls _ _ _)); [|exact Hg]. reflexivity.
Qed.

Lemma to_k8s_yaml_mismatch self ns pa w a s :
  rep (heap w) (PodConfig.args self) a s ->
  String.eqb (PodConfig.name self) "gateway" = false ->
  String.eqb (Namespace.name s) "gateway" = true ->
  registry_answers w (calls w) (shard_count s) ->
  (to_k8s_yaml self ns pa w).1 = inl AttributeError.
Proof.
  intros Hr Hself Hn Hreg. unfold to_k8s_yaml. rewrite Hself.
  destruct (is_set (Namespace.uses_before s) || is_set (Namespace.uses_after s))%bool
    eqn:Hf.
  - erewrite (bind_inl (head_deployment _)); [done|].
    unfold head_deployment.
    erewrite (bind_inl (_get_deployment_args _ _)); [done|].
    by eapply get_deployment_args_gateway_fails.
  - apply orb_false_iff in Hf as [Hb Ha].
    destruct (get_deployment_args_gateway_ok self _ w a s Hr Hn Hb Ha)
      as (cs1 & k1 & Hrun1 & _).
    erewrite (bind_inr (head_deployment _)).
    2: { unfold head_deployment.
         erewrite (bind_inr (_get_deployment_args _ _)); [|exact Hrun1].
         reflexivity. }
    destruct (get_deployment_args_gateway_ok self (PodConfig.args self)
                (grow k1 0 w) a s) as (cs & k & Hrun & Hch); try done.
    { by apply rep_older. }
    assert (length cs = shard_count s) as Hlen.
    { by rewrite (chain_length _ _ _ _ _ _ Hch), length_range. }
    erewrite (bind_inr (worker_deployments _)).
    2: { eapply worker_deployments_run; [exact Hrun|exact Hch|]. by rewrite Hlen. }
    reflexivity.
Qed.

(** [to_k8s_yaml] ends as [resolve_outcome] says, when the registry
    answers. *)
Lemma to_k8s_yaml_outcome self ns pa w a s :
  rep (heap w) (PodConfig.args self) a s ->
  registry_answers w (calls w) (S (shard_count s)) ->
  (to_k8s_yaml self ns pa w).1 =
    resolve_outcome self s (JINA_K8S_USE_TEST_PIP w) ns pa
      (fun q => version_at w (q + calls w)).
Proof.
  intros Hr Hreg.
  assert (registry_answers w (calls w) (shard_count s)) as Hreg'.
  { intros q Hq. apply Hreg. lia. }
  destruct (String.eqb (PodConfig.name self) "gateway") eqn:Hself.
  - by eapply to_k8s_yaml_gateway.
  - unfold resolve_outcome. rewrite Hself.
    destruct (String.eqb (Namespace.name s) "gateway") eqn:Hn.
    + by eapply to_k8s_yaml_mismatch.
    + destruct (to_k8s_yaml_pod self ns pa w a s Hr Hself Hn Hreg) as [k ->].
      reflexivity.
Qed.

End Resolve.

(** * The claims *)

Section Claims.
Context `{Imports}.

Lemma names_of_pod_yamls self s test_pip ns vs :
  map fst (pod_yamls self s test_pip ns vs) =
    (PodConfig.name self +:+ "-head")
    :: map (fun i => if (1 <? default 1 (Namespace.shards s))%Z
                     then PodConfig.name self +:+ "-" +:+ str i
                     else PodConfig.name self)
         (range (default 1 (Namespace.shards s))).
Proof.
  unfold pod_yamls, range, shard_count. simpl. f_equal.
  rewrite !map_map. apply map_ext. intros q. simpl. unfold worker_name.
  destruct (Z.ltb_spec 1 (default 1 (Namespace.shards s))),
    (Nat.ltb_spec 1 (Z.to_nat (default 1 (Namespace.shards s)))); try done; lia.
Qed.

Lemma length_pod_yamls self s test_pip ns vs :
  length (pod_yamls self s test_pip ns vs) = S (shard_count s).
Proof. unfold pod_yamls. simpl. by rewrite length_map, length_seq. Qed.

(** C1: for a Pod that is not the gateway and has [n >= 1] shards,
    [to_k8s_yaml] returns exactly [1 + n] pairs (unit name, fragments): the
    head's first, then the workers' for the shards 0, ..., [n - 1] in
    ascending order (their names carry the index when [n > 1], and the
    fragments of the [q]-th are rendered from the descriptor of shard [q],
    as [pod_yamls] lists them).  The requests to the registry are taken to
    succeed. *)
Theorem to_k8s_yaml_head_then_shards self k8s_namespace pod_addresses w s n :
  (snapshot (PodConfig.args self) w).1 = inr s ->
  PodConfig.name self <> "gateway" ->
  Namespace.name s <> "gateway" ->
  default 1 (Namespace.shards s) = n ->
  (1 <= n)%Z ->
  registry_answers w (calls w) (S (Z.to_nat n)) ->
  exists out w',
    to_k8s_yaml self k8s_namespace pod_addresses w = (inr out, w')
    /\ length out = (1 + Z.to_nat n)%nat
    /\ map fst out =
         (PodConfig.name self +:+ "-head")
         :: map (fun i => if (1 <? n)%Z then PodConfig.name self +:+ "-" +:+ str i
                          else PodConfig.name self)
              (range n)
    /\ out = pod_yamls self s (JINA_K8S_USE_TEST_PIP w) k8s_namespace
               (fun q => version_at w (q + calls w)).
Proof.
  intros Hs Hself Hname Hn Hpos Hreg.
  apply snapshot_inv in Hs as [a Hr].
  apply String.eqb_neq in Hself, Hname. subst n.
  destruct (to_k8s_yaml_pod self k8s_namespace pod_addresses w a s Hr Hself Hname Hreg)
    as [k Hrun].
  eexists _, _. split; [exact Hrun|]. split; [|split].
  - apply length_pod_yamls.
  - apply names_of_pod_yamls.
  - reflexivity.
Qed.

(** C2, as the code has it: neither count is checked.  On a Pod that is not
    the gateway [to_k8s_yaml] raises nothing and returns [1 + max n 0] pairs,
    [n] being the shard count: the head alone when [n <= 0].  The replica
    count, whatever it is, is handed on to every worker descriptor. *)
Theorem to_k8s_yaml_checks_no_count self k8s_namespace pod_addresses w s n r :
  (snapshot (PodConfig.args self) w).1 = inr s ->
  PodConfig.name self <> "gateway" ->
  Namespace.name s <> "gateway" ->
  default 1 (Namespace.shards s) = n ->
  default 1 (Namespace.replicas s) = r ->
  registry_answers w (calls w) (S (Z.to_nat n)) ->
  (exists out w',
     to_k8s_yaml self k8s_namespace pod_addresses w = (inr out, w')
     /\ length out = (1 + Z.to_nat n)%nat
     /\ ((n <= 0)%Z -> exists y, out = [(PodConfig.name self +:+ "-head", y)]))
  /\ (exists ds w',
        worker_deployments self w = (inr ds, w')
        /\ Forall (fun d => K8sDeployment.num_replicas d = r) ds).
Proof.
  intros Hs Hself Hname Hn Hrep Hreg.
  apply snapshot_inv in Hs as [a Hr].
  apply String.eqb_neq in Hself, Hname. subst n r. split.
  - destruct (to_k8s_yaml_pod self k8s_namespace pod_addresses w a s Hr Hself Hname Hreg)
      as [k Hrun].
    eexists _, _. split; [exact Hrun|]. split; [apply length_pod_yamls|].
    intros Hle. eexists. unfold pod_yamls, shard_count.
    replace (Z.to_nat (default 1 (Namespace.shards s))) with 0%nat by lia.
    reflexivity.
  - destruct (get_deployment_args_pod self _ w a s Hr Hname)
      as (cs & k & ah & Hrun & _ & _ & _ & Hch).
    assert (length cs = Z.to_nat (default 1 (Namespace.shards s))) as Hlen.
    { by rewrite (chain_length _ _ _ _ _ _ Hch), length_range. }
    eexists _, _. split.
    { eapply worker_deployments_run; [exact Hrun|exact Hch|].
      intros q Hq. apply Hreg. lia. }
    apply Forall_forall. intros d Hd.
    apply list_elem_of_lookup in Hd as [i Hi].
    rewrite list_lookup_imap in Hi.
    destruct (cs !! i); simpl in Hi; [|done]. by injection Hi as <-.
Qed.

(** C9: for a Pod that is not the gateway, the head's descriptor is named
    [<pod name>-head]; the worker descriptors are named after the Pod alone
    when there is one shard, and [<pod name>-<i>] for the shards
    [i = 0, ..., n - 1] when there are more. *)
Theorem unit_names self w s n :
  (snapshot (PodConfig.args self) w).1 = inr s ->
  Namespace.name s <> "gateway" ->
  default 1 (Namespace.shards s) = n ->
  registry_answers w (calls w) (S (Z.to_nat n)) ->
  (exists d w',
     head_deployment self w = (inr (Some d), w')
     /\ K8sDeployment.name d = PodConfig.name self +:+ "-head")
  /\ (exists ds w',
        worker_deployments self w = (inr ds, w')
        /\ (n = 1 -> map K8sDeployment.name ds = [PodConfig.name self])
        /\ ((1 < n)%Z ->
            map K8sDeployment.name ds =
              map (fun i => PodConfig.name self +:+ "-" +:+ str i) (range n))).
Proof.
  intros Hs Hname Hn Hreg.
  apply snapshot_inv in Hs as [a Hr].
  apply String.eqb_neq in Hname. subst n. split.
  - destruct (Hreg 0%nat) as [tags Ht]; [lia|].
    destruct (head_deployment_pod self w a s tags Hr Hname Ht) as (k & h & ah & Hrun & _).
    by eexists _, _.
  - destruct (get_deployment_args_pod self _ w a s Hr Hname)
      as (cs & k & ah & Hrun & _ & _ & _ & Hch).
    assert (length cs = Z.to_nat (default 1 (Namespace.shards s))) as Hlen.
    { by rewrite (chain_length _ _ _ _ _ _ Hch), length_range. }
    eexists _, _. split.
    { eapply worker_deployments_run; [exact Hrun|exact Hch|].
      intros q Hq. apply Hreg. lia. }
    rewrite fmap_imap.
    rewrite (imap_seq_const _
               (fun q => worker_name self (length cs) (Z.of_nat q))) by done.
    rewrite Hlen. unfold worker_name. split.
    + intros ->. reflexivity.
    + intros Hgt. unfold range. rewrite map_map. apply map_ext. intros q.
      destruct (Nat.ltb_spec 1 (Z.to_nat (default 1 (Namespace.shards s))));
        [done|lia].
Qed.


(** *** The connection list *)

Lemma append_assoc (a b c : string) : (a +:+ b) +:+ c = a +:+ (b +:+ c).
Proof.
  induction a as [|x a IH]; [done|].
  change (String x ((a +:+ b) +:+ c) = String x (a +:+ (b +:+ c))).
  by rewrite IH.
Qed.

Lemma append_empty_r (a : string) : a +:+ "" = a.
Proof.
  induction a as [|x a IH]; [done|].
  change (String x (a +:+ "") = String x a). by rewrite IH.
Qed.

Lemma drop_last_snoc (s : string) (c : ascii) :
  drop_last (s +:+ String c EmptyString) = s.
Proof.
  induction s as [|x s IH]; [done|].
  change (drop_last (String x (s +:+ String c EmptyString)) = String x s).
  destruct s as [|y s]; [done|].
  change (String x (drop_last (String y s +:+ String c EmptyString))
          = String x (String y s)).
  by rewrite IH.
Qed.

Lemma fold_left_append (f : Z -> string) l acc :
  fold_left (fun acc i => acc +:+ f i) l acc =
    acc +:+ fold_right (fun i r => f i +:+ r) "" l.
Proof.
  revert acc. induction l as [|i l IH]; intros acc; simpl.
  - by rewrite append_empty_r.
  - by rewrite IH, append_assoc.
Qed.

Lemma fold_right_append_ext (f g : Z -> string) l :
  (forall i, f i = g i) ->
  fold_right (fun i r => f i +:+ r) "" l = fold_right (fun i r => g i +:+ r) "" l.
Proof. intros Hfg. induction l as [|i l IH]; simpl; [done|]. by rewrite IH, Hfg. Qed.

Lemma concat_trailing (e : Z -> string) l :
  l <> [] ->
  fold_right (fun i r => (e i +:+ ",") +:+ r) "" l =
    String.concat "," (map e l) +:+ ",".
Proof.
  induction l as [|i l IH]; [done|]. intros _. simpl.
  destruct l as [|j l].
  - simpl. by rewrite append_empty_r.
  - rewrite IH by done. simpl map.
    rewrite !append_assoc. reflexivity.
Qed.

(** One entry of the connection list, without the separator. *)
Lemma connection_entry_text self shards i :
  connection_entry self shards i =
    (quoted (str i) +:+ ": "
     +:+ quoted ((if (1 <? shards)%Z then PodConfig.name self +:+ "-" +:+ str i
                  else PodConfig.name self)
                 +:+ "." +:+ str_bound_method "PodConfig.k8s_namespace" self
                 +:+ ".svc:" +:+ str K8S_PORT_IN))
    +:+ ",".
Proof. unfold connection_entry, quoted. by rewrite !append_assoc. Qed.

Lemma connection_list_text_shape self n :
  (1 <= n)%Z ->
  connection_list_text self n =
    "{" +:+ String.concat ","
              (map (fun i =>
                      quoted (str i) +:+ ": "
                      +:+ quoted ((if (1 <? n)%Z
                                   then PodConfig.name self +:+ "-" +:+ str i
                                   else PodConfig.name self)
                                  +:+ "."
                                  +:+ str_bound_method "PodConfig.k8s_namespace" self
                                  +:+ ".svc:" +:+ str K8S_PORT_IN))
                 (range n))
    +:+ "}".
Proof.
  intros Hn. unfold connection_list_text.
  rewrite fold_left_append.
  rewrite (fold_right_append_ext _ _ _ (connection_entry_text self n)).
  rewrite concat_trailing.
  - rewrite <- append_assoc.
    change "," with (String ","%char EmptyString) at 2.
    rewrite drop_last_snoc. by rewrite append_assoc.
  - unfold range. destruct (Z.to_nat n) eqn:E; [lia|done].
Qed.


(** C3, as the code has it: for a Pod that is not the gateway and has
    [n >= 1] shards, the head's [connection_list] is the one of the Pod's
    arguments (none, when they have none) if connection pooling is enabled;
    if it is disabled it is a text shaped like a JSON object, with the keys
    0, ..., [n - 1] in ascending order and no trailing comma, where the key
    [i] maps to [<name>.<namespace text>.svc:<K8S_PORT_IN>], the name being
    [<pod name>-<i>] when [n > 1] and the Pod's name when [n = 1].  The
    namespace text is what formatting the bound method [self.k8s_namespace]
    gives, and not the namespace of the arguments. *)
Theorem head_connection_list self args w s n :
  (snapshot args w).1 = inr s ->
  Namespace.name s <> "gateway" ->
  default 1 (Namespace.shards s) = n ->
  (1 <= n)%Z ->
  exists h cs w' sh,
    _get_deployment_args self args w = (inr (ParsedArgs.mk (Some h) cs), w')
    /\ (snapshot h w').1 = inr sh
    /\ Namespace.connection_list sh =
         if Namespace.k8s_connection_pool s then Namespace.connection_list s
         else
           Some ("{" +:+ String.concat ","
                   (map (fun i =>
                           quoted (str i) +:+ ": "
                           +:+ quoted ((if (1 <? n)%Z
                                        then PodConfig.name self +:+ "-" +:+ str i
                                        else PodConfig.name self)
                                       +:+ "."
                                       +:+ str_bound_method "PodConfig.k8s_namespace" self
                                       +:+ ".svc:" +:+ str K8S_PORT_IN))
                      (range n))
                 +:+ "}").
Proof.
  intros Hs Hname Hn Hpos.
  apply snapshot_inv in Hs as [a Hr]. apply String.eqb_neq in Hname.
  destruct (get_deployment_args_pod self args w a s Hr Hname)
    as (cs & k & ah & Hrun & Hh & _).
  exists (length (heap w)), cs, (grow k 0 w), (head_of self s).
  split; [exact Hrun|]. split.
  - by rewrite (snapshot_run (grow k 0 w) _ ah (head_of self s)).
  - unfold head_of. rewrite Hn.
    destruct (Namespace.k8s_connection_pool s), (is_set (Namespace.uses_before s)),
      (is_set (Namespace.uses_after s)); simpl;
      try reflexivity; by rewrite connection_list_text_shape.
Qed.

Lemma attrs_inv w l a : (attrs l w).1 = inr a -> heap w !! l = Some (ONamespace a).
Proof.
  unfold attrs, bind, load. destruct (heap w !! l) as [[a'|d]|]; simpl; try done.
  by intros [= ->].
Qed.

(** C10: for arguments named ["gateway"] with [uses_before] or [uses_after]
    set (a non-empty text), [_get_deployment_args] returns nothing: it raises
    an attribute error, as the address of the filter is assigned to the head,
    which is [None]. *)
Theorem gateway_with_filter_fails self args w a :
  (attrs args w).1 = inr a ->
  Namespace.name a = "gateway" ->
  is_set (Namespace.uses_before a) = true \/ is_set (Namespace.uses_after a) = true ->
  _get_deployment_args self args w = (inl AttributeError, w).
Proof.
  intros Ha Hname Hset. apply attrs_inv in Ha.
  rewrite (get_deployment_args_gateway self args w a Ha).
  - destruct Hset as [-> | ->]; [done|]. by rewrite orb_true_r.
  - by apply String.eqb_eq.
Qed.

(** C8: [to_k8s_yaml] assigns to no object that existed before the call:
    every such object is the same afterwards, whether the call returns or
    raises; so the caller's arguments read the same after it as before. *)
Theorem to_k8s_yaml_never_mutates self k8s_namespace pod_addresses w :
  (forall l o,
     heap w !! l = Some o ->
     heap (to_k8s_yaml self k8s_namespace pod_addresses w).2 !! l = Some o)
  /\ (forall s,
       (snapshot (PodConfig.args self) w).1 = inr s ->
       (snapshot (PodConfig.args self)
          (to_k8s_yaml self k8s_namespace pod_addresses w).2).1 = inr s).
Proof.
  destruct (framed_to_k8s_yaml w self k8s_namespace pod_addresses w (extends_refl w))
    as [Hext _].
  split.
  - intros l o. by apply extends_lookup.
  - intros s Hs. apply snapshot_inv in Hs as [a Hr].
    by rewrite (snapshot_run _ _ a s (rep_extends _ _ _ _ _ Hext Hr)).
Qed.

Lemma to_k8s_yaml_lookup_fails self ns pa w a s e :
  rep (heap w) (PodConfig.args self) a s ->
  String.eqb (PodConfig.name self) "gateway" = false ->
  String.eqb (Namespace.name s) "gateway" = false ->
  registry w (calls w) = inl e ->
  (to_k8s_yaml self ns pa w).1 = inl e.
Proof.
  intros Hr Hself Hname He. unfold to_k8s_yaml. rewrite Hself.
  destruct (get_deployment_args_pod self _ w a s Hr Hname) as (cs & k & ah & Hrun & _).
  erewrite (bind_inl (head_deployment _)); [done|].
  unfold head_deployment.
  erewrite (bind_inr (_get_deployment_args _ _)); [|exact Hrun]. simpl.
  erewrite (bind_inl _get_base_executor_version); [done|].
  by apply get_base_executor_version_fails.
Qed.

(** C4, as the code has it: the lookup returns ["master"] when the request
    succeeds and the tags it lists do not include the running version (and
    that version when they do); when the request fails the lookup raises
    what the request raised, and so does [to_k8s_yaml] on a Pod that is not
    the gateway. *)
Theorem version_lookup_failure_is_raised self k8s_namespace pod_addresses w s :
  (snapshot (PodConfig.args self) w).1 = inr s ->
  PodConfig.name self <> "gateway" ->
  Namespace.name s <> "gateway" ->
  (forall tags,
     registry w (calls w) = inr tags ->
     (_get_base_executor_version w).1 =
       inr (if existsb (String.eqb __version__) tags then __version__ else "master"))
  /\ (forall e,
       registry w (calls w) = inl e ->
       (_get_base_executor_version w).1 = inl e
       /\ (to_k8s_yaml self k8s_namespace pod_addresses w).1 = inl e).
Proof.
  intros Hs Hself Hname. apply snapshot_inv in Hs as [a Hr].
  apply String.eqb_neq in Hself, Hname. split.
  - intros tags Ht. by rewrite (get_base_executor_version_run w tags Ht).
  - intros e He. split.
    + by rewrite (get_base_executor_version_fails w e He).
    + by eapply to_k8s_yaml_lookup_fails.
Qed.

(** C5, as the code has it: one call of [to_k8s_yaml] on a Pod that is not
    the gateway asks the registry exactly [1 + n] times, [n] being the number
    of workers: once for each descriptor it builds.  No result is shared:
    the descriptor of each worker holds what its own request yielded. *)
Theorem to_k8s_yaml_lookups self k8s_namespace pod_addresses w s :
  (snapshot (PodConfig.args self) w).1 = inr s ->
  PodConfig.name self <> "gateway" ->
  Namespace.name s <> "gateway" ->
  registry_answers w (calls w) (S (shard_count s)) ->
  calls (to_k8s_yaml self k8s_namespace pod_addresses w).2
    = (calls w + (1 + shard_count s))%nat
  /\ exists ds w',
       worker_deployments self w = (inr ds, w')
       /\ calls w' = (calls w + shard_count s)%nat
       /\ map K8sDeployment.version ds =
            map (fun q => version_at w (q + calls w)) (seq 0 (shard_count s)).
Proof.
  intros Hs Hself Hname Hreg. apply snapshot_inv in Hs as [a Hr].
  apply String.eqb_neq in Hself, Hname. split.
  - destruct (to_k8s_yaml_pod self k8s_namespace pod_addresses w a s Hr Hself Hname Hreg)
      as [k ->].
    simpl. lia.
  - destruct (get_deployment_args_pod self _ w a s Hr Hname)
      as (cs & k & ah & Hrun & _ & _ & _ & Hch).
    assert (length cs = shard_count s) as Hlen.
    { by rewrite (chain_length _ _ _ _ _ _ Hch), length_range. }
    eexists _, _. split.
    { eapply worker_deployments_run; [exact Hrun|exact Hch|].
      intros q Hq. apply Hreg. lia. }
    split; [simpl; lia|].
    rewrite fmap_imap.
    by rewrite (imap_seq_const _ (fun q => version_at w (q + calls w))), Hlen.
Qed.






End Claims.

(** * Examples: the claims at a concrete Pod *)

#[local] Existing Instance demo.

(** C1 at the Pod ["enc"] with three shards. *)
Lemma to_k8s_yaml_head_then_shards_witness :
  exists out w',
    to_k8s_yaml (pod_at "enc") "ns" None
      (world_of (pod_args "enc" (Some 3) None true None) registry_up) = (inr out, w')
    /\ length out = 4%nat
    /\ map fst out = ["enc-head"; "enc-0"; "enc-1"; "enc-2"]
    /\ out = pod_yamls (pod_at "enc") (pod_spec "enc" (Some 3) None true None)
               (JINA_K8S_USE_TEST_PIP
                  (world_of (pod_args "enc" (Some 3) None true None) registry_up))
               "ns"
               (fun q =>
                  version_at
                    (world_of (pod_args "enc" (Some 3) None true None) registry_up)
                    (q + calls (world_of (pod_args "enc" (Some 3) None true None)
                                  registry_up))).
Proof.
  eapply (to_k8s_yaml_head_then_shards (pod_at "enc") "ns" None
            (world_of (pod_args "enc" (Some 3) None true None) registry_up)
            (pod_spec "enc" (Some 3) None true None) 3).
  - reflexivity.
  - simpl. discriminate.
  - simpl. discriminate.
  - reflexivity.
  - lia.
  - intros q _. eexists. reflexivity.
Defined.

(** C2 as stated fails: with no shard the head alone is returned and nothing
    is raised; with no replica and two shards the three pairs are returned. *)
Lemma to_k8s_yaml_accepts_zero_counts :
  (exists y,
     (to_k8s_yaml (pod_at "enc") "ns" None
        (world_of (pod_args "enc" (Some 0) None true None) registry_up)).1
     = inr [("enc-head", y)])
  /\ (exists y0 y1 y2,
        (to_k8s_yaml (pod_at "enc") "ns" None
           (world_of (pod_args "enc" (Some 2) (Some 0) true None) registry_up)).1
        = inr [("enc-head", y0); ("enc-0", y1); ("enc-1", y2)]).
Proof.
  split.
  - eexists. vm_compute. reflexivity.
  - eexists _, _, _. vm_compute. reflexivity.
Qed.

(** C2, amended, at the Pod ["enc"] with no shard and no replica. *)
Lemma to_k8s_yaml_checks_no_count_witness :
  (exists out w',
     to_k8s_yaml (pod_at "enc") "ns" None
       (world_of (pod_args "enc" (Some 0) (Some 0) true None) registry_up) =
       (inr out, w')
     /\ length out = 1%nat
     /\ ((0 <= 0)%Z -> exists y, out = [("enc-head", y)]))
  /\ (exists ds w',
        worker_deployments (pod_at "enc")
          (world_of (pod_args "enc" (Some 0) (Some 0) true None) registry_up) =
          (inr ds, w')
        /\ Forall (fun d => K8sDeployment.num_replicas d = 0) ds).
Proof.
  apply (to_k8s_yaml_checks_no_count (pod_at "enc") "ns" None
           (world_of (pod_args "enc" (Some 0) (Some 0) true None) registry_up)
           (pod_spec "enc" (Some 0) (Some 0) true None) 0 0).
  - reflexivity.
  - simpl. discriminate.
  - simpl. discriminate.
  - reflexivity.
  - reflexivity.
  - intros q _. eexists. reflexivity.
Defined.

(** C3 at the Pod ["enc"] with three shards and connection pooling
    disabled. *)
Lemma head_connection_list_witness :
  exists h cs w' sh,
    _get_deployment_args (pod_at "enc") 0%nat
      (world_of (pod_args "enc" (Some 3) None false None) registry_up) =
      (inr (ParsedArgs.mk (Some h) cs), w')
    /\ (snapshot h w').1 = inr sh
    /\ Namespace.connection_list sh =
         if Namespace.k8s_connection_pool (pod_spec "enc" (Some 3) None false None)
         then Namespace.connection_list (pod_spec "enc" (Some 3) None false None)
         else
           Some ("{" +:+ String.concat ","
                   (map (fun i =>
                           quoted (str i) +:+ ": "
                           +:+ quoted ((if (1 <? 3)%Z
                                        then PodConfig.name (pod_at "enc") +:+ "-" +:+ str i
                                        else PodConfig.name (pod_at "enc"))
                                       +:+ "."
                                       +:+ str_bound_method "PodConfig.k8s_namespace"
                                             (pod_at "enc")
                                       +:+ ".svc:" +:+ str K8S_PORT_IN))
                      (range 3))
                 +:+ "}").
Proof.
  apply (head_connection_list (pod_at "enc") 0%nat
           (world_of (pod_args "enc" (Some 3) None false None) registry_up)
           (pod_spec "enc" (Some 3) None false None) 3).
  - reflexivity.
  - simpl. discriminate.
  - reflexivity.
  - lia.
Defined.

(** The connection list of that head, and the one the namespace ["ns"] of
    the arguments would give: they differ. *)
Example connection_list_is_not_the_namespace :
  exists h cs w' sh,
    _get_deployment_args (pod_at "enc") 0%nat
      (world_of (pod_args "enc" (Some 3) None false None) registry_up) =
      (inr (ParsedArgs.mk (Some h) cs), w')
    /\ (snapshot h w').1 = inr sh
    /\ Namespace.k8s_namespace sh = "ns"
    /\ Namespace.connection_list sh =
         Some ("{"
               +:+ quoted "0" +:+ ": "
               +:+ quoted "enc-0.<bound method PodConfig.k8s_namespace of <jina.peapods.pods.Pod object at 0x7f2c>>.svc:8081"
               +:+ ","
               +:+ quoted "1" +:+ ": "
               +:+ quoted "enc-1.<bound method PodConfig.k8s_namespace of <jina.peapods.pods.Pod object at 0x7f2c>>.svc:8081"
               +:+ ","
               +:+ quoted "2" +:+ ": "
               +:+ quoted "enc-2.<bound method PodConfig.k8s_namespace of <jina.peapods.pods.Pod object at 0x7f2c>>.svc:8081"
               +:+ "}")
    /\ Namespace.connection_list sh <>
         Some ("{"
               +:+ quoted "0" +:+ ": " +:+ quoted "enc-0.ns.svc:8081" +:+ ","
               +:+ quoted "1" +:+ ": " +:+ quoted "enc-1.ns.svc:8081" +:+ ","
               +:+ quoted "2" +:+ ": " +:+ quoted "enc-2.ns.svc:8081"
               +:+ "}").
Proof.
  eexists _, _, _, _. vm_compute.
  split; [reflexivity|]. split; [reflexivity|]. split; [reflexivity|].
  split; [reflexivity|]. discriminate.
Qed.

(** C4 as stated fails: when the registry is down the lookup raises, and does
    not return ["master"]; [to_k8s_yaml] raises the same. *)
Lemma version_lookup_raises_when_registry_is_down :
  (_get_base_executor_version
     (world_of (pod_args "enc" (Some 2) None true None) registry_down)).1
  = inl (RequestError "connection refused")
  /\ (_get_base_executor_version
        (world_of (pod_args "enc" (Some 2) None true None) registry_down)).1
     <> inr "master"
  /\ (to_k8s_yaml (pod_at "enc") "ns" None
        (world_of (pod_args "enc" (Some 2) None true None) registry_down)).1
     = inl (RequestError "connection refused").
Proof. vm_compute. split; [reflexivity|]. split; [discriminate|reflexivity]. Qed.

(** C4, amended, at the Pod ["enc"] with the registry down. *)
Lemma version_lookup_failure_is_raised_witness :
  (forall tags,
     registry (world_of (pod_args "enc" (Some 2) None true None) registry_down)
       (calls (world_of (pod_args "enc" (Some 2) None true None) registry_down))
     = inr tags ->
     (_get_base_executor_version
        (world_of (pod_args "enc" (Some 2) None true None) registry_down)).1 =
       inr (if existsb (String.eqb __version__) tags then __version__ else "master"))
  /\ (forall e,
       registry (world_of (pod_args "enc" (Some 2) None true None) registry_down)
         (calls (world_of (pod_args "enc" (Some 2) None true None) registry_down))
       = inl e ->
       (_get_base_executor_version
          (world_of (pod_args "enc" (Some 2) None true None) registry_down)).1 = inl e
       /\ (to_k8s_yaml (pod_at "enc") "ns" None
             (world_of (pod_args "enc" (Some 2) None true None) registry_down)).1
          = inl e).
Proof.
  apply (version_lookup_failure_is_raised (pod_at "enc") "ns" None
           (world_of (pod_args "enc" (Some 2) None true None) registry_down)
           (pod_spec "enc" (Some 2) None true None)).
  - reflexivity.
  - simpl. discriminate.
  - simpl. discriminate.
Defined.

(** C5 as stated fails: with two shards one call asks the registry three
    times. *)
Lemma to_k8s_yaml_asks_for_each_unit :
  calls (world_of (pod_args "enc" (Some 2) None true None) registry_up) = 0%nat
  /\ calls (to_k8s_yaml (pod_at "enc") "ns" None
              (world_of (pod_args "enc" (Some 2) None true None) registry_up)).2
     = 3%nat.
Proof. vm_compute. by split. Qed.

(** C5, amended, at the Pod ["enc"] with two shards. *)
Lemma to_k8s_yaml_lookups_witness :
  calls (to_k8s_yaml (pod_at "enc") "ns" None
           (world_of (pod_args "enc" (Some 2%Z) None true None) registry_up)).2
    = (calls (world_of (pod_args "enc" (Some 2%Z) None true None) registry_up)
       + (1 + shard_count (pod_spec "enc" (Some 2%Z) None true None)))%nat
  /\ exists ds w',
       worker_deployments (pod_at "enc")
         (world_of (pod_args "enc" (Some 2%Z) None true None) registry_up)
       = (inr ds, w')
       /\ calls w'
          = (calls (world_of (pod_args "enc" (Some 2%Z) None true None) registry_up)
             + shard_count (pod_spec "enc" (Some 2%Z) None true None))%nat
       /\ map K8sDeployment.version ds =
            map (fun q =>
                   version_at
                     (world_of (pod_args "enc" (Some 2%Z) None true None) registry_up)
                     (q + calls (world_of (pod_args "enc" (Some 2%Z) None true None)
                                   registry_up)))
              (seq 0 (shard_count (pod_spec "enc" (Some 2%Z) None true None))).
Proof.
  apply (to_k8s_yaml_lookups (pod_at "enc") "ns" None
           (world_of (pod_args "enc" (Some 2%Z) None true None) registry_up)
           (pod_spec "enc" (Some 2%Z) None true None)).
  - reflexivity.
  - simpl. discriminate.
  - simpl. discriminate.
  - intros q _. eexists. reflexivity.
Defined.



(** C9 at the Pod ["enc"] with three shards. *)
Lemma unit_names_witness :
  (exists d w',
     head_deployment (pod_at "enc")
       (world_of (pod_args "enc" (Some 3) None true None) registry_up)
     = (inr (Some d), w')
     /\ K8sDeployment.name d = "enc-head")
  /\ (exists ds w',
        worker_deployments (pod_at "enc")
          (world_of (pod_args "enc" (Some 3) None true None) registry_up)
        = (inr ds, w')
        /\ (3 = 1 -> map K8sDeployment.name ds = ["enc"])
        /\ ((1 < 3)%Z -> map K8sDeployment.name ds = ["enc-0"; "enc-1"; "enc-2"])).
Proof.
  apply (unit_names (pod_at "enc")
           (world_of (pod_args "enc" (Some 3) None true None) registry_up)
           (pod_spec "enc" (Some 3) None true None) 3).
  - reflexivity.
  - simpl. discriminate.
  - reflexivity.
  - intros q _. eexists. reflexivity.
Defined.

(** C10 at the gateway with a filter before it. *)
Lemma gateway_with_filter_fails_witness :
  _get_deployment_args (pod_at "gateway") 0%nat
    (world_of (pod_args "gateway" (Some 1) None true (Some "Filter")) registry_up)
  = (inl AttributeError,
     world_of (pod_args "gateway" (Some 1) None true (Some "Filter")) registry_up).
Proof.
  apply (gateway_with_filter_fails (pod_at "gateway") 0%nat
           (world_of (pod_args "gateway" (Some 1) None true (Some "Filter")) registry_up)
           (pod_args "gateway" (Some 1) None true (Some "Filter"))).
  - reflexivity.
  - reflexivity.
  - left. reflexivity.
Defined.

(** * Further properties of the module *)

Section Further.
Context `{Imports}.

(** ** The gateway *)

Lemma to_k8s_yaml_gateway_run self ns pa w a s :
  rep (heap w) (PodConfig.args self) a s ->
  String.eqb (PodConfig.name self) "gateway" = true ->
  (String.eqb (Namespace.name s) "gateway"
   && (is_set (Namespace.uses_before s) || is_set (Namespace.uses_after s)))%bool
    = false ->
  registry_answers w (calls w) (shard_count s) ->
  exists k,
    to_k8s_yaml self ns pa w =
      (match shard_count s with
       | O => inl IndexError
       | S _ =>
           inr [("gateway",
                 gateway_yamls
                   (worker_descriptor self (shard_count s)
                      (default 1 (Namespace.replicas s))
                      (version_at w (calls w)) 0 0%nat)
                   s (JINA_K8S_USE_TEST_PIP w) ns pa)]
       end,
       grow k (shard_count s) w).
Proof.
  intros Hr Hself Hc Hreg. unfold to_k8s_yaml. rewrite Hself.
  destruct (get_deployment_args_workers self _ w a s Hr Hc)
    as (hd & cs & k & lo & Hrun & Hch & _).
  assert (length cs = shard_count s) as Hlen.
  { by rewrite (chain_length _ _ _ _ _ _ Hch), length_range. }
  erewrite (bind_inr (worker_deployments _)).
  2: { eapply worker_deployments_run; [exact Hrun|exact Hch|]. by rewrite Hlen. }
  rewrite <- Hlen. destruct cs as [|c cs]; simpl.
  - by exists k.
  - edestruct (get_gateway_yamls_run
                 (worker_descriptor self (S (length cs))
                    (default 1 (Namespace.replicas s))
                    (version_at w (0 + calls w)) 0 c) ns pa
                 (grow k (S (length cs)) w)) as [o Hg].
    { simpl. apply rep_older. exact Hr. }
    exists (k ++ [o]).
    erewrite (bind_inr (get_gateway_yamls _ _ _)); [|exact Hg].
    unfold ret. by rewrite grow_grow.
Qed.

Lemma gateway_expands (s : Namespace.t dict) :
  (Namespace.name s = "gateway" ->
   is_set (Namespace.uses_before s) = false /\ is_set (Namespace.uses_after s) = false) ->
  (String.eqb (Namespace.name s) "gateway"
   && (is_set (Namespace.uses_before s) || is_set (Namespace.uses_after s)))%bool
    = false.
Proof.
  intros Hfil. destruct (String.eqb_spec (Namespace.name s) "gateway") as [E|]; [|done].
  by destruct (Hfil E) as [-> ->].
Qed.

(** For the Pod named ["gateway"] with [n >= 1] shards, [to_k8s_yaml]
    returns one pair, named ["gateway"], whatever the replica count: the
    fragments of one deployment with one replica, whose image carries the
    version of the first request.  The deployment itself is named after the
    first worker: ["gateway-0"] when [n > 1].  The registry is asked once
    for each of the [n] workers, though one is rendered. *)
Theorem gateway_is_one_unit self k8s_namespace pod_addresses w s n :
  (snapshot (PodConfig.args self) w).1 = inr s ->
  PodConfig.name self = "gateway" ->
  (Namespace.name s = "gateway" ->
   is_set (Namespace.uses_before s) = false /\ is_set (Namespace.uses_after s) = false) ->
  default 1 (Namespace.shards s) = n ->
  (1 <= n)%Z ->
  registry_answers w (calls w) (Z.to_nat n) ->
  exists kw w',
    to_k8s_yaml self k8s_namespace pod_addresses w =
      (inr [("gateway",
             get_deployment_yamls
               (to_dns_name (if (1 <? n)%Z then "gateway-0" else "gateway")) kw)],
       w')
    /\ calls w' = (calls w + Z.to_nat n)%nat
    /\ kwarg_of "replicas" kw = Some (KInt 1)
    /\ kwarg_of "image_name" kw =
         Some (KStr (if JINA_K8S_USE_TEST_PIP w then "jinaai/jina:test-pip"
                     else "jinaai/jina:" +:+ version_at w (calls w)
                          +:+ "-py38-standard")).
Proof.
  intros Hs Hself Hfil Hn Hpos Hreg.
  apply snapshot_inv in Hs as [a Hr]. subst n.
  destruct (to_k8s_yaml_gateway_run self k8s_namespace pod_addresses w a s Hr
              (proj2 (String.eqb_eq _ _) Hself) (gateway_expands s Hfil) Hreg)
    as [k Hrun].
  unfold shard_count in Hrun.
  destruct (Z.to_nat (default 1 (Namespace.shards s))) as [|m] eqn:Hm; [lia|].
  eexists _, _. split.
  { rewrite Hrun. unfold gateway_yamls, worker_descriptor, worker_name. simpl.
    rewrite Hself.
    replace (1 <? default 1 (Namespace.shards s))%Z with (1 <? S m)%nat; [reflexivity|].
    destruct (Nat.ltb_spec 1 (S m)), (Z.ltb_spec 1 (default 1 (Namespace.shards s)));
      try done; lia. }
  split; [simpl; lia|]. split; reflexivity.
Qed.

(** For the Pod named ["gateway"] with no shard (a count of zero or less),
    [to_k8s_yaml] raises [IndexError]: it indexes the empty list of workers.
    The registry is not asked. *)
Theorem gateway_without_shards_fails self k8s_namespace pod_addresses w s :
  (snapshot (PodConfig.args self) w).1 = inr s ->
  PodConfig.name self = "gateway" ->
  (Namespace.name s = "gateway" ->
   is_set (Namespace.uses_before s) = false /\ is_set (Namespace.uses_after s) = false) ->
  (default 1 (Namespace.shards s) <= 0)%Z ->
  exists w',
    to_k8s_yaml self k8s_namespace pod_addresses w = (inl IndexError, w')
    /\ calls w' = calls w.
Proof.
  intros Hs Hself Hfil Hn.
  apply snapshot_inv in Hs as [a Hr].
  assert (shard_count s = 0%nat) as H0 by (unfold shard_count; lia).
  destruct (to_k8s_yaml_gateway_run self k8s_namespace pod_addresses w a s Hr
              (proj2 (String.eqb_eq _ _) Hself) (gateway_expands s Hfil))
    as [k Hrun].
  { rewrite H0. intros q Hq. lia. }
  rewrite H0 in Hrun. eexists. split; [exact Hrun|]. reflexivity.
Qed.

(** ** The head *)

(** With connection pooling disabled and no shard (a count of zero or less),
    the head's connection list is the text [}]: the loop adds no entry, and
    dropping the last character removes the opening brace. *)
Theorem connection_list_without_shards self args w s :
  (snapshot args w).1 = inr s ->
  Namespace.name s <> "gateway" ->
  Namespace.k8s_connection_pool s = false ->
  (default 1 (Namespace.shards s) <= 0)%Z ->
  exists h w' sh,
    _get_deployment_args self args w = (inr (ParsedArgs.mk (Some h) []), w')
    /\ (snapshot h w').1 = inr sh
    /\ Namespace.connection_list sh = Some "}".
Proof.
  intros Hs Hname Hpool Hn.
  apply snapshot_inv in Hs as [a Hr]. apply String.eqb_neq in Hname.
  destruct (get_deployment_args_pod self args w a s Hr Hname)
    as (cs & k & ah & Hrun & Hh & _ & _ & Hch).
  assert (cs = []) as ->.
  { apply length_zero_iff_nil.
    rewrite (chain_length _ _ _ _ _ _ Hch), length_range. lia. }
  exists (length (heap w)), (grow k 0 w), (head_of self s).
  split; [exact Hrun|]. split.
  - by rewrite (snapshot_run (grow k 0 w) _ ah (head_of self s)).
  - unfold head_of. rewrite Hpool.
    assert (connection_list_text self (default 1 (Namespace.shards s)) = "}") as ->.
    { unfold connection_list_text, range.
      replace (Z.to_nat (default 1 (Namespace.shards s))) with 0%nat by lia.
      reflexivity. }
    by destruct (is_set (Namespace.uses_before s)), (is_set (Namespace.uses_after s)).
Qed.

(** The argument set of the head of a Pod that is not the gateway: one
    replica whatever the Pod's count, the head runtime and role, the ingress
    port, and the local address of each filter that is set (a non-empty
    text); the address a filter that is not set had in the arguments stays.
    The references to the executor and to the filters are the Pod's. *)
Theorem head_argument_set self args w s :
  (snapshot args w).1 = inr s ->
  Namespace.name s <> "gateway" ->
  exists h cs w' sh,
    _get_deployment_args self args w = (inr (ParsedArgs.mk (Some h) cs), w')
    /\ (snapshot h w').1 = inr sh
    /\ Namespace.replicas sh = Some 1
    /\ Namespace.runtime_cls sh = Some "HeadRuntime"
    /\ Namespace.pea_role sh = Some HEAD
    /\ Namespace.port_in sh = Some K8S_PORT_IN
    /\ Namespace.uses_before_address sh =
         (if is_set (Namespace.uses_before s)
          then Some ("127.0.0.1:" +:+ str K8S_PORT_USES_BEFORE)
          else Namespace.uses_before_address s)
    /\ Namespace.uses_after_address sh =
         (if is_set (Namespace.uses_after s)
          then Some ("127.0.0.1:" +:+ str K8S_PORT_USES_AFTER)
          else Namespace.uses_after_address s)
    /\ Namespace.uses sh = Namespace.uses s
    /\ Namespace.uses_before sh = Namespace.uses_before s
    /\ Namespace.uses_after sh = Namespace.uses_after s
    /\ Namespace.uses_with sh = Namespace.uses_with s
    /\ Namespace.env sh = Namespace.env s
    /\ Namespace.shard_id sh = Namespace.shard_id s.
Proof.
  intros Hs Hname.
  apply snapshot_inv in Hs as [a Hr]. apply String.eqb_neq in Hname.
  destruct (get_deployment_args_pod self args w a s Hr Hname)
    as (cs & k & ah & Hrun & Hh & _).
  exists (length (heap w)), cs, (grow k 0 w), (head_of self s).
  split; [exact Hrun|]. split.
  { by rewrite (snapshot_run (grow k 0 w) _ ah (head_of self s)). }
  unfold head_of.
  destruct (Namespace.k8s_connection_pool s), (is_set (Namespace.uses_before s)),
    (is_set (Namespace.uses_after s)); simpl; repeat split.
Qed.


(** The property [head_deployment] of arguments named ["gateway"] with no
    filter set is [None], and reading it asks the registry nothing. *)
Theorem head_deployment_of_gateway self w s :
  (snapshot (PodConfig.args self) w).1 = inr s ->
  Namespace.name s = "gateway" ->
  is_set (Namespace.uses_before s) = false ->
  is_set (Namespace.uses_after s) = false ->
  exists w', head_deployment self w = (inr None, w') /\ calls w' = calls w.
Proof.
  intros Hs Hname Hb Ha.
  apply snapshot_inv in Hs as [a Hr]. apply String.eqb_eq in Hname.
  destruct (get_deployment_args_gateway_ok self _ w a s Hr Hname Hb Ha)
    as (cs & k & Hrun & _).
  exists (grow k 0 w). split; [|done]. unfold head_deployment.
  erewrite (bind_inr (_get_deployment_args _ _)); [|exact Hrun]. reflexivity.
Qed.

(** A Pod whose own name is not ["gateway"] while its arguments are named
    ["gateway"] cannot be rendered: there is no head ([_get_deployment_args]
    builds none for such arguments), and [to_k8s_yaml] raises
    [AttributeError] once the registry has answered for the workers. *)
Theorem to_k8s_yaml_needs_a_head self k8s_namespace pod_addresses w s :
  (snapshot (PodConfig.args self) w).1 = inr s ->
  PodConfig.name self <> "gateway" ->
  Namespace.name s = "gateway" ->
  registry_answers w (calls w) (shard_count s) ->
  (to_k8s_yaml self k8s_namespace pod_addresses w).1 = inl AttributeError.
Proof.
  intros Hs Hself Hname Hreg.
  apply snapshot_inv in Hs as [a Hr].
  apply String.eqb_neq in Hself. apply String.eqb_eq in Hname.
  by eapply to_k8s_yaml_mismatch.
Qed.

(** ** Shallow and deep copies *)

Lemma dict_at_insert h r d l o :
  dict_at h r d -> r <> Some l -> dict_at (<[l := o]> h) r d.
Proof.
  destruct r as [r|], d as [d|]; simpl; try done.
  intros Hr Hne. rewrite list_lookup_insert_ne; [done|]. congruence.
Qed.

Lemma rep_insert h c a s l o :
  rep h c a s -> l ∉ reach h c -> rep (<[l := o]> h) c a s.
Proof.
  intros Hr Hl. rewrite (reach_rep _ _ _ _ Hr) in Hl.
  destruct Hr as (Hc & uw & ev & Hu & He & ->).
  apply not_elem_of_cons in Hl as [Hlc Hl].
  apply not_elem_of_app in Hl as [Hlu Hle].
  split; [by rewrite list_lookup_insert_ne|]. exists uw, ev.
  split; [|split; [|done]]; apply dict_at_insert; try done.
  - intros E. rewrite E in Hlu. apply Hlu. simpl. by left.
  - intros E. rewrite E in Hle. apply Hle. simpl. by left.
Qed.

(** The head's argument set is a shallow copy of the Pod's arguments: a new
    namespace object whose [uses_with] and [env] are the Pod's own
    dictionaries.  So a later change of the Pod's [uses_with] dictionary
    shows in the head's argument set, and in no worker's. *)
Theorem head_shares_dictionaries self args w s :
  (snapshot args w).1 = inr s ->
  Namespace.name s <> "gateway" ->
  exists h cs w' a ah,
    _get_deployment_args self args w = (inr (ParsedArgs.mk (Some h) cs), w')
    /\ h <> args
    /\ (attrs args w').1 = inr a
    /\ (attrs h w').1 = inr ah
    /\ Namespace.uses_with ah = Namespace.uses_with a
    /\ Namespace.env ah = Namespace.env a
    /\ forall l d,
         Namespace.uses_with a = Some l ->
         (exists sh,
            (snapshot h (write l (ODict d) w').2).1 = inr sh
            /\ Namespace.uses_with sh = Some d)
         /\ forall c,
              c ∈ cs ->
              (snapshot c (write l (ODict d) w').2).1 = (snapshot c w').1.
Proof.
  intros Hs Hname.
  apply snapshot_inv in Hs as [a Hr]. apply String.eqb_neq in Hname.
  destruct (get_deployment_args_pod self args w a s Hr Hname)
    as (cs & k & ah & Hrun & Hh & Huw & Hev & Hch).
  pose proof Hr as (Ha & uw & ev & Hu & He & Es).
  pose proof Hh as (Hah & uwh & evh & Huh & Heh & Esh).
  assert (args < length (heap w))%nat as Hlt by (by eapply lookup_lt_Some).
  exists (length (heap w)), cs, (grow k 0 w), a, ah.
  split; [exact Hrun|]. split; [lia|]. split.
  { rewrite (attrs_run _ _ a); [done|]. simpl. by apply lookup_older. }
  split; [by rewrite (attrs_run _ _ ah)|]. split; [done|]. split; [done|].
  intros l d Hl. unfold write. cbn [snd fst].
  assert (l < length (heap w))%nat as Hll.
  { rewrite Hl in Hu. destruct uw as [d0|]; [|done]. by eapply lookup_lt_Some. }
  split.
  - exists (Namespace.with_dicts (Some d)
              (if decide (Namespace.env ah = Some l) then Some d else evh) ah).
    split; [|done].
    rewrite (snapshot_run _ _ ah
               (Namespace.with_dicts (Some d)
                  (if decide (Namespace.env ah = Some l) then Some d else evh) ah));
      [done|].
    simpl. split; [rewrite list_lookup_insert_ne; [done|lia]|].
    eexists _, _. split; [|split; [|reflexivity]].
    + rewrite Huw, Hl. simpl. apply list_lookup_insert_eq.
      rewrite length_app. lia.
    + destruct (decide (Namespace.env ah = Some l)) as [E|E].
      * rewrite E. simpl. apply list_lookup_insert_eq. rewrite length_app. lia.
      * by apply dict_at_insert.
  - intros c Hc. apply list_elem_of_lookup in Hc as [q Hq].
    assert (q < Z.to_nat (default 1%Z (Namespace.shards s)))%nat as Hq'.
    { rewrite <- length_range, <- (chain_length _ _ _ _ _ _ Hch).
      by eapply lookup_lt_Some. }
    destruct (chain_lookup _ _ _ _ _ _ _ _ _ Hch (lookup_range _ q Hq') Hq)
      as (lo & hi & ac & Hrc & Hf & Hlo & _ & _).
    rewrite (snapshot_run (grow k 0 w) _ ac _ Hrc).
    erewrite snapshot_run; [done|]. simpl. apply rep_insert; [exact Hrc|].
    intros Hin. rewrite Forall_forall in Hf. specialize (Hf _ Hin). lia.
Qed.

(** ** The descriptors *)

(** [head_deployment] of a Pod that is not the gateway: one request to the
    registry, and a descriptor of one replica whatever the Pod's count, with
    no shard, whose [common_args] is the Pod's own argument object and whose
    [deployment_args] is a new object that reads as the head's argument
    set. *)
Theorem head_deployment_descriptor self w s tags :
  (snapshot (PodConfig.args self) w).1 = inr s ->
  Namespace.name s <> "gateway" ->
  registry w (calls w) = inr tags ->
  exists h w',
    head_deployment self w =
      (inr (Some (K8sDeployment.mk
                    (PodConfig.name self +:+ "-head")
                    (to_dns_name (PodConfig.name self +:+ "-head"))
                    K8S_PORT_IN
                    (if existsb (String.eqb __version__) tags then __version__
                     else "master")
                    "head" (PodConfig.name self) None (PodConfig.args self)
                    (Some h) 1 None)),
       w')
    /\ calls w' = S (calls w)
    /\ (length (heap w) <= h)%nat
    /\ (snapshot h w').1 = inr (head_of self s).
Proof.
  intros Hs Hname Ht.
  apply snapshot_inv in Hs as [a Hr]. apply String.eqb_neq in Hname.
  destruct (get_deployment_args_pod self _ w a s Hr Hname)
    as (cs1 & k1 & ah1 & Hrun1 & _).
  destruct (get_deployment_args_pod self (PodConfig.args self) (grow k1 1 w) a s)
    as (cs2 & k2 & ah2 & Hrun2 & Hh2 & _); [by apply rep_older | done |].
  simpl heap in *. rewrite grow_grow in Hrun2. simpl in Hrun2.
  exists (length (heap w ++ k1)), (grow (k1 ++ k2) 1 w).
  split; [|split; [done|split]].
  - unfold head_deployment.
    erewrite (bind_inr (_get_deployment_args _ _)); [|exact Hrun1]. simpl.
    erewrite (bind_inr _get_base_executor_version);
      [|by apply get_base_executor_version_run].
    rewrite tick_grow.
    erewrite (bind_inr (_get_deployment_args _ _)); [|exact Hrun2]. simpl.
    erewrite (bind_inr (_K8sDeployment _ _ _ _ _ _ _ _)).
    2: { apply K8sDeployment_run. simpl. rewrite (assoc_L (++)). apply Hh2. }
    by rewrite (rep_replicas _ _ _ _ Hh2), head_of_replicas.
  - rewrite length_app. lia.
  - rewrite (snapshot_run _ _ ah2 (head_of self s)); [done|].
    simpl. by rewrite (assoc_L (++)).
Qed.

Lemma get_deployment_args_new_workers self args w a s :
  rep (heap w) args a s ->
  (String.eqb (Namespace.name s) "gateway"
   && (is_set (Namespace.uses_before s) || is_set (Namespace.uses_after s)))%bool
    = false ->
  exists hd cs k lo,
    _get_deployment_args self args w = (inr (ParsedArgs.mk hd cs), grow k 0 w)
    /\ chain (heap w ++ k) s lo (length (heap w ++ k))
         (range (default 1 (Namespace.shards s))) cs
    /\ (length (heap w) <= lo)%nat.
Proof.
  intros Hr Hc. destruct (String.eqb (Namespace.name s) "gateway") eqn:Hn.
  - simpl in Hc. apply orb_false_iff in Hc as [Hb Ha].
    destruct (get_deployment_args_gateway_ok self args w a s Hr Hn Hb Ha)
      as (cs & k & Hrun & Hch).
    by exists None, cs, k, (length (heap w)).
  - destruct (get_deployment_args_pod self args w a s Hr Hn)
      as (cs & k & ah & Hrun & _ & _ & _ & Hch).
    exists (Some (length (heap w))), cs, k, (S (length (heap w))).
    split; [done|]. split; [done|]. lia.
Qed.

(** [worker_deployments], whatever the Pod: one descriptor per shard when the
    registry answers; the one of shard [q] has that shard id, the type
    ["worker"], the Pod's own argument object as [common_args], and as
    [deployment_args] a new object that reads as the worker's argument set. *)
Theorem worker_deployments_descriptors self w s :
  (snapshot (PodConfig.args self) w).1 = inr s ->
  (Namespace.name s = "gateway" ->
   is_set (Namespace.uses_before s) = false /\ is_set (Namespace.uses_after s) = false) ->
  registry_answers w (calls w) (shard_count s) ->
  exists ds w',
    worker_deployments self w = (inr ds, w')
    /\ length ds = shard_count s
    /\ forall q d,
         ds !! q = Some d ->
         K8sDeployment.shard_id d = Some (Z.of_nat q)
         /\ K8sDeployment.pea_type d = "worker"
         /\ K8sDeployment.jina_pod_name d = PodConfig.name self
         /\ K8sDeployment.dns_name d = to_dns_name (K8sDeployment.name d)
         /\ K8sDeployment.common_args d = PodConfig.args self
         /\ exists c,
              K8sDeployment.deployment_args d = Some c
              /\ c <> PodConfig.args self
              /\ (snapshot c w').1 = inr (worker_of s (Z.of_nat q)).
Proof.
  intros Hs Hfil Hreg.
  apply snapshot_inv in Hs as [a Hr].
  destruct (get_deployment_args_new_workers self _ w a s Hr (gateway_expands s Hfil))
    as (hd & cs & k & lo & Hrun & Hch & Hlo).
  assert (length cs = shard_count s) as Hlen.
  { by rewrite (chain_length _ _ _ _ _ _ Hch), length_range. }
  eexists _, _. split.
  { eapply worker_deployments_run; [exact Hrun|exact Hch|]. by rewrite Hlen. }
  split; [by rewrite length_imap|].
  intros q d Hd. rewrite list_lookup_imap in Hd.
  destruct (cs !! q) as [c|] eqn:Hq; [|done]. simpl in Hd.
  injection Hd as <-. simpl. repeat (split; [done|]).
  exists c. split; [done|].
  assert (q < Z.to_nat (default 1%Z (Namespace.shards s)))%nat as Hq'.
  { rewrite <- length_range, <- (chain_length _ _ _ _ _ _ Hch).
    by eapply lookup_lt_Some. }
  destruct (chain_lookup _ _ _ _ _ _ _ _ _ Hch (lookup_range _ q Hq') Hq)
    as (lo' & hi' & ac & Hc & Hf & Hlo' & _ & _).
  split.
  - rewrite (reach_rep _ _ _ _ Hc) in Hf. apply Forall_cons in Hf as [Hb _].
    destruct Hr as [Ha _]. apply lookup_lt_Some in Ha. lia.
  - by rewrite (snapshot_run (grow k (length cs) w) _ ac _ Hc).
Qed.

(** ** What the methods leave alone *)

Lemma reads_ret {A} (a : A) : reads (ret a).
Proof. done. Qed.

Lemma reads_raise {A} e : reads (@raise A e).
Proof. done. Qed.

Lemma reads_bind {A B} (m : M A) (f : A -> M B) :
  reads m -> (forall a, reads (f a)) -> reads (bind m f).
Proof.
  intros Hm Hf w. unfold bind. specialize (Hm w).
  destruct (m w) as [[e|a] w1]; simpl in *; subst; [done|apply Hf].
Qed.

Lemma reads_load l : reads (load l).
Proof. intros w. unfold load. by destruct (heap w !! l). Qed.

Lemma reads_attrs l : reads (attrs l).
Proof.
  apply reads_bind; [apply reads_load|].
  intros [a|d]; [apply reads_ret|apply reads_raise].
Qed.

Lemma reads_snapshot l : reads (snapshot l).
Proof. intros w. apply snapshot_world. Qed.

Lemma reads_getenv : reads getenv_test_pip.
Proof. done. Qed.

Lemma reads_get_image_name d u : reads (_get_image_name d u).
Proof.
  unfold _get_image_name. destruct (String.eqb _ _); [|apply reads_ret].
  apply reads_bind; [apply reads_getenv|]. intros. apply reads_ret.
Qed.

Lemma reads_K8sDeployment n p v t j sid c d : reads (_K8sDeployment n p v t j sid c d).
Proof.
  unfold _K8sDeployment. apply reads_bind; [|intros; apply reads_ret].
  destruct d; [|apply reads_ret].
  apply reads_bind; [apply reads_attrs|]. intros. apply reads_ret.
Qed.

Lemma reads_get_runtime_yamls d ns : reads (get_runtime_yamls d ns).
Proof.
  unfold get_runtime_yamls. apply reads_bind.
  { destruct (K8sDeployment.deployment_args d);
      [apply reads_snapshot|apply reads_raise]. }
  intros da. apply reads_bind; [apply reads_get_image_name|]. intros i1.
  apply reads_bind.
  { destruct (is_set _); [|apply reads_ret].
    apply reads_bind; [apply reads_get_image_name|]. intros. apply reads_ret. }
  intros i2. apply reads_bind.
  { destruct (is_set _); [|apply reads_ret].
    apply reads_bind; [apply reads_get_image_name|]. intros. apply reads_ret. }
  intros i3. apply reads_bind; [apply reads_snapshot|]. intros. apply reads_ret.
Qed.

Lemma quiet_reads {A} (m : M A) : reads m -> quiet m.
Proof. intros Hm w. by rewrite Hm. Qed.

Lemma quiet_bind {A B} (m : M A) (f : A -> M B) :
  quiet m -> (forall a, quiet (f a)) -> quiet (bind m f).
Proof.
  intros Hm Hf w. unfold bind. specialize (Hm w).
  destruct (m w) as [[e|a] w1]; simpl in *; [done|]. by rewrite Hf.
Qed.

Lemma quiet_mapM {A B} (f : A -> M B) l : (forall a, quiet (f a)) -> quiet (mapM f l).
Proof.
  intros Hf. induction l as [|x l IH]; simpl; [by apply quiet_reads|].
  apply quiet_bind; [apply Hf|]. intros y.
  apply quiet_bind; [apply IH|]. intros ys. by apply quiet_reads.
Qed.

Lemma quiet_new o : quiet (new o).
Proof. done. Qed.

Lemma quiet_write l o : quiet (write l o).
Proof. done. Qed.

Lemma quiet_attrs l : quiet (attrs l).
Proof. apply quiet_reads, reads_attrs. Qed.

Lemma quiet_setattr l f : quiet (setattr l f).
Proof. apply quiet_bind; [apply quiet_attrs|]. intros. apply quiet_write. Qed.

Lemma quiet_copy_copy l : quiet (copy_copy l).
Proof. apply quiet_bind; [apply quiet_attrs|]. intros. apply quiet_new. Qed.

Lemma quiet_items l : quiet (items l).
Proof.
  apply quiet_reads, reads_bind; [apply reads_load|].
  intros [a|d]; [apply reads_raise|apply reads_ret].
Qed.

Lemma quiet_deepcopy_dict r : quiet (deepcopy_dict r).
Proof.
  destruct r; simpl; [|by apply quiet_reads].
  apply quiet_bind; [apply quiet_items|]. intros.
  apply quiet_bind; [apply quiet_new|]. intros. by apply quiet_reads.
Qed.

Lemma quiet_deepcopy l : quiet (deepcopy l).
Proof.
  apply quiet_bind; [apply quiet_attrs|]. intros a.
  apply quiet_bind; [apply quiet_deepcopy_dict|]. intros uw.
  apply quiet_bind; [|intros; apply quiet_new].
  destruct (decide _); [by apply quiet_reads|apply quiet_deepcopy_dict].
Qed.

Lemma quiet_get_deployment_args self args : quiet (_get_deployment_args self args).
Proof.
  unfold _get_deployment_args.
  apply quiet_bind; [apply quiet_attrs|]. intros a0.
  apply quiet_bind; [apply quiet_attrs|]. intros a1.
  apply quiet_bind.
  { destruct (negb _); [|by apply quiet_reads].
    apply quiet_bind; [apply quiet_copy_copy|]. intros h.
    do 4 (apply quiet_bind; [apply quiet_setattr|]; intros _).
    apply quiet_bind; [apply quiet_attrs|]. intros a2.
    apply quiet_bind; [|intros; by apply quiet_reads].
    destruct (negb _); [apply quiet_setattr|by apply quiet_reads]. }
  intros hd.
  apply quiet_bind.
  { destruct (is_set _); [|by apply quiet_reads].
    destruct hd; [apply quiet_setattr|by apply quiet_reads]. }
  intros _.
  apply quiet_bind.
  { destruct (is_set _); [|by apply quiet_reads].
    destruct hd; [apply quiet_setattr|by apply quiet_reads]. }
  intros _.
  apply quiet_bind; [|intros; by apply quiet_reads].
  apply quiet_mapM. intros i.
  apply quiet_bind; [apply quiet_deepcopy|]. intros c.
  do 4 (apply quiet_bind; [apply quiet_setattr|]; intros _).
  apply quiet_bind; [apply quiet_attrs|]. intros a2.
  apply quiet_bind; [|intros; by apply quiet_reads].
  destruct (String.eqb _ _); [apply quiet_setattr|by apply quiet_reads].
Qed.

Lemma quiet_get_gateway_yamls d ns pa : quiet (get_gateway_yamls d ns pa).
Proof.
  unfold get_gateway_yamls.
  apply quiet_bind; [by apply quiet_reads|]. intros tp.
  apply quiet_bind; [apply quiet_copy_copy|]. intros c.
  apply quiet_bind; [apply quiet_attrs|]. intros a.
  apply quiet_bind; [destruct (Namespace.k8s_connection_pool a); apply quiet_setattr|].
  intros _.
  apply quiet_bind; [apply quiet_reads, reads_snapshot|]. intros. by apply quiet_reads.
Qed.

(** [_get_deployment_args] is local: whether it returns or raises, it sends
    no request to the registry and leaves every object that existed before
    the call as it was, the arguments it is given among them; the head and
    the workers it returns are objects it has allocated. *)
Theorem get_deployment_args_is_local self args w :
  calls (_get_deployment_args self args w).2 = calls w
  /\ (forall l o,
        heap w !! l = Some o ->
        heap (_get_deployment_args self args w).2 !! l = Some o)
  /\ (forall p,
        (_get_deployment_args self args w).1 = inr p ->
        (forall h, ParsedArgs.head_deployment p = Some h -> (length (heap w) <= h)%nat)
        /\ Forall (fun c => (length (heap w) <= c)%nat) (ParsedArgs.deployments p)).
Proof.
  destruct (framed_get_deployment_args w self args w (extends_refl w)) as [Hext Hp].
  split; [apply quiet_get_deployment_args|]. split.
  - intros l o. by apply extends_lookup.
  - intros p Hrun. rewrite Hrun in Hp. destruct Hp as [Hh Hcs]. split; [|exact Hcs].
    intros h Eh. by rewrite Eh in Hh.
Qed.

(** Building and rendering a descriptor: [_K8sDeployment.__init__] and
    [get_runtime_yamls] only read, they leave the store, the registry and
    the environment as they found them, whether they return or raise;
    [get_gateway_yamls] sends no request and assigns to its own copy of the
    arguments only: every object that existed before is as it was. *)
Theorem rendering_is_local d k8s_namespace pod_addresses w :
  (get_runtime_yamls d k8s_namespace w).2 = w
  /\ (forall n p v t j sid c da, (_K8sDeployment n p v t j sid c da w).2 = w)
  /\ calls (get_gateway_yamls d k8s_namespace pod_addresses w).2 = calls w
  /\ (forall l o,
        heap w !! l = Some o ->
        heap (get_gateway_yamls d k8s_namespace pod_addresses w).2 !! l = Some o).
Proof.
  split; [apply reads_get_runtime_yamls|].
  split; [intros; apply reads_K8sDeployment|].
  split; [apply quiet_get_gateway_yamls|].
  destruct (framed_get_gateway_yamls w d k8s_namespace pod_addresses w (extends_refl w))
    as [Hext _].
  intros l o. by apply extends_lookup.
Qed.


(** ** What is rendered *)

Lemma head_of_filters {D} self (s : Namespace.t D) :
  Namespace.uses_before (head_of self s) = Namespace.uses_before s
  /\ Namespace.uses_after (head_of self s) = Namespace.uses_after s.
Proof.
  unfold head_of.
  by destruct (Namespace.k8s_connection_pool s), (is_set (Namespace.uses_before s)),
    (is_set (Namespace.uses_after s)).
Qed.

Lemma worker_of_filters {D} (s : Namespace.t D) i :
  Namespace.uses_before (worker_of s i) = None
  /\ Namespace.uses_after (worker_of s i) = None.
Proof. unfold worker_of. by destruct (String.eqb _ _). Qed.

(** The head of a Pod that is not the gateway is rendered first, with one
    replica whatever the Pod's count, no shard id and the type ["head"]; the
    image and the arguments of a filter container are passed for each filter
    that is set, and [None] for the others. *)
Theorem filters_run_beside_the_head self k8s_namespace pod_addresses w s :
  (snapshot (PodConfig.args self) w).1 = inr s ->
  PodConfig.name self <> "gateway" ->
  Namespace.name s <> "gateway" ->
  registry_answers w (calls w) (S (shard_count s)) ->
  exists kw rest w',
    to_k8s_yaml self k8s_namespace pod_addresses w =
      (inr ((PodConfig.name self +:+ "-head",
             get_deployment_yamls (to_dns_name (PodConfig.name self +:+ "-head")) kw)
            :: rest),
       w')
    /\ kwarg_of "replicas" kw = Some (KInt 1)
    /\ kwarg_of "shard_id" kw = Some KNone
    /\ kwarg_of "pea_type" kw = Some (KStr "head")
    /\ kwarg_of "jina_pod_name" kw = Some (KStr (PodConfig.name self))
    /\ kwarg_of "image_name_uses_before" kw =
         Some (if is_set (Namespace.uses_before s)
               then KStr (image_name_of (version_at w (calls w))
                            (JINA_K8S_USE_TEST_PIP w)
                            (default "" (Namespace.uses_before s)))
               else KNone)
    /\ kwarg_of "image_name_uses_after" kw =
         Some (if is_set (Namespace.uses_after s)
               then KStr (image_name_of (version_at w (calls w))
                            (JINA_K8S_USE_TEST_PIP w)
                            (default "" (Namespace.uses_after s)))
               else KNone)
    /\ (kwarg_of "container_args_uses_before" kw = Some KNone
        <-> is_set (Namespace.uses_before s) = false)
    /\ (kwarg_of "container_args_uses_after" kw = Some KNone
        <-> is_set (Namespace.uses_after s) = false).
Proof.
  intros Hs Hself Hname Hreg.
  apply snapshot_inv in Hs as [a Hr].
  apply String.eqb_neq in Hself. apply String.eqb_neq in Hname.
  destruct (to_k8s_yaml_pod self k8s_namespace pod_addresses w a s Hr Hself Hname Hreg)
    as [k Hrun].
  destruct (head_of_filters self s) as [Eb Ea].
  eexists _, _, _. split.
  { rewrite Hrun. unfold pod_yamls, runtime_yamls. reflexivity. }
  cbn [kwarg_of String.eqb Ascii.eqb Bool.eqb K8sDeployment.num_replicas
       K8sDeployment.shard_id K8sDeployment.pea_type K8sDeployment.jina_pod_name
       K8sDeployment.version head_descriptor].
  rewrite Eb, Ea.
  repeat split; try reflexivity.
  - by destruct (is_set (Namespace.uses_before s)).
  - by destruct (is_set (Namespace.uses_after s)).
  - by destruct (is_set (Namespace.uses_before s)).
  - by destruct (is_set (Namespace.uses_before s)).
  - by destruct (is_set (Namespace.uses_after s)).
  - by destruct (is_set (Namespace.uses_after s)).
Qed.

(** The workers of a Pod that is not the gateway are rendered after the
    head, one per shard, each with the Pod's replica count, its shard id and
    the type ["worker"]; no filter container is passed for a worker, also
    when the Pod has filters. *)
Theorem workers_run_no_filter self k8s_namespace pod_addresses w s :
  (snapshot (PodConfig.args self) w).1 = inr s ->
  PodConfig.name self <> "gateway" ->
  Namespace.name s <> "gateway" ->
  registry_answers w (calls w) (S (shard_count s)) ->
  exists hd ws w',
    to_k8s_yaml self k8s_namespace pod_addresses w = (inr (hd :: ws), w')
    /\ length ws = shard_count s
    /\ forall q y,
         ws !! q = Some y ->
         exists kw,
           y.2 = get_deployment_yamls (to_dns_name y.1) kw
           /\ kwarg_of "replicas" kw = Some (KInt (default 1 (Namespace.replicas s)))
           /\ kwarg_of "shard_id" kw = Some (KInt (Z.of_nat q))
           /\ kwarg_of "pea_type" kw = Some (KStr "worker")
           /\ kwarg_of "jina_pod_name" kw = Some (KStr (PodConfig.name self))
           /\ kwarg_of "image_name_uses_before" kw = Some KNone
           /\ kwarg_of "image_name_uses_after" kw = Some KNone
           /\ kwarg_of "container_args_uses_before" kw = Some KNone
           /\ kwarg_of "container_args_uses_after" kw = Some KNone.
Proof.
  intros Hs Hself Hname Hreg.
  apply snapshot_inv in Hs as [a Hr].
  apply String.eqb_neq in Hself. apply String.eqb_neq in Hname.
  destruct (to_k8s_yaml_pod self k8s_namespace pod_addresses w a s Hr Hself Hname Hreg)
    as [k Hrun].
  eexists _, _, _. split.
  { rewrite Hrun. unfold pod_yamls. reflexivity. }
  split; [by rewrite length_map, length_seq|].
  intros q y Hy. rewrite list_lookup_fmap in Hy.
  destruct (seq 0 (shard_count s) !! q) as [q'|] eqn:Hq; [|done].
  apply lookup_seq in Hq as [-> Hq]. simpl in Hy. injection Hy as <-.
  destruct (worker_of_filters s (Z.of_nat q)) as [Eb Ea].
  eexists. split.
  { unfold runtime_yamls. reflexivity. }
  cbn [kwarg_of String.eqb Ascii.eqb Bool.eqb K8sDeployment.num_replicas
       K8sDeployment.shard_id K8sDeployment.pea_type K8sDeployment.jina_pod_name
       K8sDeployment.version worker_descriptor].
  rewrite Eb, Ea. repeat split; reflexivity.
Qed.

(** With [JINA_K8S_USE_TEST_PIP] set in the environment, what [to_k8s_yaml]
    returns for given arguments does not depend on what the registry lists:
    the registry is asked all the same, and every image it would have named
    is the test image. *)
Theorem test_pip_ignores_the_registry self k8s_namespace pod_addresses w1 w2 s :
  (snapshot (PodConfig.args self) w1).1 = inr s ->
  (snapshot (PodConfig.args self) w2).1 = inr s ->
  JINA_K8S_USE_TEST_PIP w1 = true ->
  JINA_K8S_USE_TEST_PIP w2 = true ->
  registry_answers w1 (calls w1) (S (shard_count s)) ->
  registry_answers w2 (calls w2) (S (shard_count s)) ->
  (to_k8s_yaml self k8s_namespace pod_addresses w1).1 =
    (to_k8s_yaml self k8s_namespace pod_addresses w2).1.
Proof.
  intros Hs1 Hs2 He1 He2 Hreg1 Hreg2.
  apply snapshot_inv in Hs1 as [a1 Hr1]. apply snapshot_inv in Hs2 as [a2 Hr2].
  rewrite (to_k8s_yaml_outcome self _ _ w1 a1 s Hr1 Hreg1).
  rewrite (to_k8s_yaml_outcome self _ _ w2 a2 s Hr2 Hreg2).
  rewrite He1, He2. unfold resolve_outcome.
  destruct (String.eqb (PodConfig.name self) "gateway").
  - destruct (_ && _)%bool; [done|]. by destruct (shard_count s).
  - destruct (String.eqb (Namespace.name s) "gateway"); [done|].
    reflexivity.
Qed.

(** ** The names of the units *)

Lemma to_int_norm z : Z.to_int z = Decimal.norm (Z.to_int z).
Proof. by rewrite <- DecimalZ.to_of, DecimalZ.of_to. Qed.

Lemma int_of_str z : NilZero.int_of_string (str z) = Some (Z.to_int z).
Proof.
  unfold str. apply NilZero.isi; intros E; pose proof (to_int_norm z) as Hn;
    rewrite E in Hn; discriminate Hn.
Qed.

Lemma str_inj i j : str i = str j -> i = j.
Proof.
  intros E. apply DecimalZ.to_int_inj.
  pose proof (int_of_str i) as Hi. rewrite E, int_of_str in Hi. congruence.
Qed.

Lemma append_inv_head (a b c : string) : a +:+ b = a +:+ c -> b = c.
Proof.
  induction a as [|x a IH]; [done|].
  change (String x (a +:+ b) = String x (a +:+ c) -> b = c).
  intros [= E]. by apply IH.
Qed.

Lemma head_is_no_shard self i :
  PodConfig.name self +:+ "-head" <> PodConfig.name self +:+ "-" +:+ str i.
Proof.
  intros E. apply append_inv_head in E. injection E as E.
  change ("head" = str i) in E.
  pose proof (int_of_str i) as Hi. rewrite <- E in Hi. discriminate Hi.
Qed.

Lemma head_is_no_pod self : PodConfig.name self +:+ "-head" <> PodConfig.name self.
Proof.
  intros E. rewrite <- (append_empty_r (PodConfig.name self)) in E at 2.
  by apply append_inv_head in E.
Qed.

Lemma NoDup_range n : NoDup (range n).
Proof.
  unfold range. apply NoDup_fmap_2; [|apply NoDup_seq].
  intros x y. apply Nat2Z.inj.
Qed.

(** The names [to_k8s_yaml] gives the units of a Pod that is not the
    gateway are pairwise distinct. *)
Theorem units_have_distinct_names self k8s_namespace pod_addresses w s :
  (snapshot (PodConfig.args self) w).1 = inr s ->
  PodConfig.name self <> "gateway" ->
  Namespace.name s <> "gateway" ->
  registry_answers w (calls w) (S (shard_count s)) ->
  exists out w',
    to_k8s_yaml self k8s_namespace pod_addresses w = (inr out, w')
    /\ NoDup (map fst out).
Proof.
  intros Hs Hself Hname Hreg.
  apply snapshot_inv in Hs as [a Hr].
  apply String.eqb_neq in Hself. apply String.eqb_neq in Hname.
  destruct (to_k8s_yaml_pod self k8s_namespace pod_addresses w a s Hr Hself Hname Hreg)
    as [k Hrun].
  eexists _, _. split; [exact Hrun|].
  rewrite names_of_pod_yamls.
  destruct (1 <? default 1 (Namespace.shards s))%Z eqn:Hn.
  - apply NoDup_cons. split.
    + intros Hin. apply list_elem_of_fmap in Hin as (i & E & _).
      by apply head_is_no_shard in E.
    + apply NoDup_fmap_2; [|apply NoDup_range].
      intros i j E. apply append_inv_head in E. injection E as E. by apply str_inj.
  - apply Z.ltb_ge in Hn. unfold range.
    assert (Z.to_nat (default 1 (Namespace.shards s)) = 0%nat
            \/ Z.to_nat (default 1 (Namespace.shards s)) = 1%nat) as [-> | ->] by lia.
    + simpl. apply NoDup_singleton.
    + simpl. apply NoDup_cons. split; [|apply NoDup_singleton].
      intros Hin. apply list_elem_of_singleton in Hin. by apply head_is_no_pod in Hin.
Qed.

(** ** A request that fails *)

(** The loop of [worker_deployments] when the request for the worker [q]
    fails. *)
Lemma mapM_workers_fails self n e cs : forall off w q,
  (forall i c, cs !! i = Some c -> exists ac, heap w !! c = Some (ONamespace ac)) ->
  (q < length cs)%nat ->
  registry_answers w (calls w) q ->
  registry w (q + calls w)%nat = inl e ->
  mapM (fun '(i, args) =>
          let name := if (1 <? n)%nat then PodConfig.name self +:+ "-" +:+ str i
                      else PodConfig.name self in
          version <- _get_base_executor_version;;
          _K8sDeployment name K8S_PORT_IN version "worker" (PodConfig.name self)
            (Some i) (PodConfig.args self) (Some args))
       (combine (map Z.of_nat (seq off (length cs))) cs) w =
    (inl e, ticks (S q) w).
Proof.
  induction cs as [|c cs IH]; intros off w q Hcs Hq Hreg He; [simpl in Hq; lia|].
  simpl length. simpl seq. simpl map. simpl combine. simpl mapM.
  destruct q as [|q].
  - simpl in He.
    erewrite (bind_inl (bind _get_base_executor_version _)); [done|].
    erewrite (bind_inl _get_base_executor_version); [done|].
    by apply get_base_executor_version_fails.
  - destruct (Hreg 0%nat) as [tags Ht]; [lia|]. simpl in Ht.
    destruct (Hcs 0%nat c eq_refl) as [ac Hc].
    erewrite (bind_inr (bind _get_base_executor_version _)).
    2: { erewrite (bind_inr _get_base_executor_version);
           [|by apply get_base_executor_version_run].
         by apply K8sDeployment_run. }
    erewrite (bind_inl (mapM _ _)).
    2: { apply (IH (S off) (tick w) q).
         - intros i c' Hi. apply (Hcs (S i) c' Hi).
         - simpl in Hq. lia.
         - intros i Hi. destruct (Hreg (S i)) as [t' Ht']; [lia|].
           exists t'. simpl. rewrite <- Ht'. f_equal. lia.
         - simpl. rewrite <- He. f_equal. lia. }
    unfold ticks. simpl. f_equal. f_equal. lia.
Qed.

Lemma worker_deployments_fails self w a s q e :
  rep (heap w) (PodConfig.args self) a s ->
  (String.eqb (Namespace.name s) "gateway"
   && (is_set (Namespace.uses_before s) || is_set (Namespace.uses_after s)))%bool
    = false ->
  (q < shard_count s)%nat ->
  registry_answers w (calls w) q ->
  registry w (q + calls w)%nat = inl e ->
  exists k, worker_deployments self w = (inl e, grow k (S q) w).
Proof.
  intros Hr Hc Hq Hreg He.
  destruct (get_deployment_args_workers self _ w a s Hr Hc)
    as (hd & cs & k & lo & Hrun & Hch & _).
  assert (length cs = shard_count s) as Hlen.
  { by rewrite (chain_length _ _ _ _ _ _ Hch), length_range. }
  exists k. unfold worker_deployments.
  erewrite (bind_inr (_get_deployment_args _ _)); [|exact Hrun].
  cbn [ParsedArgs.deployments].
  unfold enumerate, range. rewrite Nat2Z.id.
  etrans; [apply (mapM_workers_fails self (length cs) e cs 0 (grow k 0 w) q)|].
  5: reflexivity.
  - intros i c Hi. destruct (chain_workers _ _ _ _ _ _ _ _ Hch Hi) as [ac [Hc' _]].
    by exists ac.
  - lia.
  - exact Hreg.
  - exact He.
Qed.

(** When the request for the worker [q] fails (the registry is down, the
    answer is no JSON), [worker_deployments] raises what the request raised
    and returns no descriptor, having asked [q + 1] times; so does
    [to_k8s_yaml] on the Pod named ["gateway"]. *)
Theorem worker_lookup_failure_is_raised self k8s_namespace pod_addresses w s q e :
  (snapshot (PodConfig.args self) w).1 = inr s ->
  (Namespace.name s = "gateway" ->
   is_set (Namespace.uses_before s) = false /\ is_set (Namespace.uses_after s) = false) ->
  (q < shard_count s)%nat ->
  registry_answers w (calls w) q ->
  registry w (q + calls w)%nat = inl e ->
  (exists w',
     worker_deployments self w = (inl e, w') /\ calls w' = (calls w + S q)%nat)
  /\ (PodConfig.name self = "gateway" ->
      exists w',
        to_k8s_yaml self k8s_namespace pod_addresses w = (inl e, w')
        /\ calls w' = (calls w + S q)%nat).
Proof.
  intros Hs Hfil Hq Hreg He.
  apply snapshot_inv in Hs as [a Hr].
  destruct (worker_deployments_fails self w a s q e Hr (gateway_expands s Hfil)
              Hq Hreg He) as [k Hrun].
  split.
  - eexists. split; [exact Hrun|]. simpl. lia.
  - intros Hself. apply String.eqb_eq in Hself.
    eexists. split.
    + unfold to_k8s_yaml. rewrite Hself.
      erewrite (bind_inl (worker_deployments _)); [reflexivity|exact Hrun].
    + simpl. lia.
Qed.

(** [to_k8s_yaml] on a Pod that is not the gateway asks for the head, then
    for each worker; when the request [q] of these fails, the first or a
    later one, it raises what the request raised and returns nothing, having
    asked [q + 1] times. *)
Theorem any_lookup_failure_is_raised self k8s_namespace pod_addresses w s q e :
  (snapshot (PodConfig.args self) w).1 = inr s ->
  PodConfig.name self <> "gateway" ->
  Namespace.name s <> "gateway" ->
  (q <= shard_count s)%nat ->
  registry_answers w (calls w) q ->
  registry w (q + calls w)%nat = inl e ->
  exists w',
    to_k8s_yaml self k8s_namespace pod_addresses w = (inl e, w')
    /\ calls w' = (calls w + S q)%nat.
Proof.
  intros Hs Hself Hname Hq Hreg He.
  apply snapshot_inv in Hs as [a Hr].
  apply String.eqb_neq in Hself. apply String.eqb_neq in Hname.
  unfold to_k8s_yaml. rewrite Hself.
  destruct q as [|q].
  - destruct (get_deployment_args_pod self _ w a s Hr Hname)
      as (cs & k & ah & Hrun & _).
    eexists. split.
    + erewrite (bind_inl (head_deployment _)); [reflexivity|].
      unfold head_deployment.
      erewrite (bind_inr (_get_deployment_args _ _)); [|exact Hrun]. simpl.
      erewrite (bind_inl _get_base_executor_version); [reflexivity|].
      by apply get_base_executor_version_fails.
    + simpl. lia.
  - destruct (Hreg 0%nat) as [tags Ht]; [lia|]. simpl in Ht.
    destruct (head_deployment_pod self w a s tags Hr Hname Ht)
      as (k1 & h & ah & Hhead & Hh).
    destruct (worker_deployments_fails self (grow k1 1 w) a s q e) as [k2 Hw].
    + by apply rep_older.
    + by rewrite Hname.
    + lia.
    + intros i Hi. destruct (Hreg (S i)) as [t' Ht']; [lia|].
      exists t'. simpl. rewrite <- Ht'. f_equal. lia.
    + simpl. rewrite <- He. f_equal. lia.
    + eexists. split.
      * erewrite (bind_inr (head_deployment _)); [|exact Hhead].
        erewrite (bind_inl (worker_deployments _)); [reflexivity|exact Hw].
      * simpl. lia.
Qed.

(** ** The connection list and the workers *)

(** With connection pooling disabled and [n >= 1] shards, the head's
    connection list has one entry per descriptor of [worker_deployments], in
    their order: the key is the descriptor's shard id, and the host starts
    with the descriptor's name and ends with its port. *)
Theorem connection_list_names_the_workers self w s n :
  (snapshot (PodConfig.args self) w).1 = inr s ->
  Namespace.name s <> "gateway" ->
  Namespace.k8s_connection_pool s = false ->
  default 1 (Namespace.shards s) = n ->
  (1 <= n)%Z ->
  registry_answers w (calls w) (Z.to_nat n) ->
  exists h cs w1 sh ds w2,
    _get_deployment_args self (PodConfig.args self) w =
      (inr (ParsedArgs.mk (Some h) cs), w1)
    /\ (snapshot h w1).1 = inr sh
    /\ worker_deployments self w = (inr ds, w2)
    /\ Namespace.connection_list sh =
         Some ("{" +:+ String.concat ","
                 (map (fun d =>
                         quoted (str (default 0 (K8sDeployment.shard_id d))) +:+ ": "
                         +:+ quoted (K8sDeployment.name d +:+ "."
                                     +:+ str_bound_method "PodConfig.k8s_namespace" self
                                     +:+ ".svc:"
                                     +:+ str (K8sDeployment.head_port_in d)))
                    ds)
               +:+ "}").
Proof.
  intros Hs Hname Hpool Hn Hpos Hreg.
  apply snapshot_inv in Hs as [a Hr]. apply String.eqb_neq in Hname.
  destruct (get_deployment_args_pod self _ w a s Hr Hname)
    as (cs & k & ah & Hrun & Hh & _ & _ & Hch).
  assert (length cs = Z.to_nat n) as Hlen.
  { by rewrite (chain_length _ _ _ _ _ _ Hch), length_range, Hn. }
  eexists _, cs, _, (head_of self s), _, _.
  split; [exact Hrun|]. split.
  { by rewrite (snapshot_run (grow k 0 w) _ ah (head_of self s)). }
  split.
  { eapply worker_deployments_run; [exact Hrun|exact Hch|]. by rewrite Hlen. }
  assert (Namespace.connection_list (head_of self s)
          = Some (connection_list_text self n)) as ->.
  { unfold head_of. rewrite Hpool, Hn.
    by destruct (is_set (Namespace.uses_before s)), (is_set (Namespace.uses_after s)). }
  rewrite (connection_list_text_shape self n Hpos). do 4 f_equal.
  unfold range. rewrite map_map. apply list_eq. intros q.
  rewrite !list_lookup_fmap, list_lookup_imap, <- Hlen.
  destruct (cs !! q) as [c|] eqn:Hq; simpl.
  - rewrite lookup_seq_lt by (by eapply lookup_lt_Some). simpl. f_equal.
    unfold worker_name. rewrite Hlen.
    replace (1 <? Z.to_nat n)%nat with (1 <? n)%Z; [done|].
    destruct (Z.ltb_spec 1 n), (Nat.ltb_spec 1 (Z.to_nat n)); try done; lia.
  - rewrite lookup_seq_ge; [done|]. by apply lookup_ge_None.
Qed.

End Further.

(** * Examples: the further properties at a concrete Pod *)

(** The gateway with two shards and three replicas. *)
Lemma gateway_is_one_unit_witness :
  exists kw w',
    to_k8s_yaml (pod_at "gateway") "ns" None (world_of gateway_args registry_up) =
      (inr [("gateway",
             get_deployment_yamls
               (to_dns_name (if (1 <? 2)%Z then "gateway-0" else "gateway")) kw)],
       w')
    /\ calls w' = (calls (world_of gateway_args registry_up) + Z.to_nat 2)%nat
    /\ kwarg_of "replicas" kw = Some (KInt 1)
    /\ kwarg_of "image_name" kw =
         Some (KStr (if JINA_K8S_USE_TEST_PIP (world_of gateway_args registry_up)
                     then "jinaai/jina:test-pip"
                     else "jinaai/jina:"
                          +:+ version_at (world_of gateway_args registry_up)
                                (calls (world_of gateway_args registry_up))
                          +:+ "-py38-standard")).
Proof.
  apply (gateway_is_one_unit (pod_at "gateway") "ns" None (world_of gateway_args registry_up)
           (spec_of gateway_args) 2).
  - reflexivity.
  - reflexivity.
  - intros _. split; reflexivity.
  - reflexivity.
  - lia.
  - intros q _. eexists. reflexivity.
Defined.


Lemma head_deployment_of_gateway_witness :
  exists w',
    head_deployment (pod_at "gateway") (world_of gateway_args registry_up) = (inr None, w')
    /\ calls w' = calls (world_of gateway_args registry_up).
Proof.
  apply (head_deployment_of_gateway (pod_at "gateway") (world_of gateway_args registry_up)
           (spec_of gateway_args)).
  - reflexivity.
  - reflexivity.
  - reflexivity.
  - reflexivity.
Defined.

(** The Pod ["enc"] over the arguments of the gateway. *)
Lemma to_k8s_yaml_needs_a_head_witness :
  (to_k8s_yaml (pod_at "enc") "ns" None (world_of gateway_args registry_up)).1
  = inl AttributeError.
Proof.
  apply (to_k8s_yaml_needs_a_head (pod_at "enc") "ns" None (world_of gateway_args registry_up)
           (spec_of gateway_args)).
  - reflexivity.
  - simpl. discriminate.
  - reflexivity.
  - intros q _. eexists. reflexivity.
Defined.


(** The gateway before a registry whose second answer is an error. *)
Lemma worker_lookup_failure_is_raised_witness :
  (exists w',
     worker_deployments (pod_at "gateway") (world_of gateway_args registry_flaky) =
       (inl (RequestError "timed out"), w')
     /\ calls w' = (calls (world_of gateway_args registry_flaky) + 2)%nat)
  /\ (PodConfig.name (pod_at "gateway") = "gateway" ->
      exists w',
        to_k8s_yaml (pod_at "gateway") "ns" None (world_of gateway_args registry_flaky) =
          (inl (RequestError "timed out"), w')
        /\ calls w' = (calls (world_of gateway_args registry_flaky) + 2)%nat).
Proof.
  apply (worker_lookup_failure_is_raised (pod_at "gateway") "ns" None
           (world_of gateway_args registry_flaky) (spec_of gateway_args) 1
           (RequestError "timed out")).
  - reflexivity.
  - intros _. split; reflexivity.
  - vm_compute. lia.
  - intros q Hq. destruct q; [eexists; reflexivity | lia].
  - reflexivity.
Defined.

(** The gateway with no shard. *)
Lemma gateway_without_shards_fails_witness :
  exists w',
    to_k8s_yaml (pod_at "gateway") "ns" None (world_of gateway_unsharded registry_up) =
      (inl IndexError, w')
    /\ calls w' = calls (world_of gateway_unsharded registry_up).
Proof.
  apply (gateway_without_shards_fails (pod_at "gateway") "ns" None
           (world_of gateway_unsharded registry_up) (spec_of gateway_unsharded)).
  - reflexivity.
  - reflexivity.
  - intros _. split; reflexivity.
  - simpl. lia.
Defined.

(** The Pod ["enc"] with no shard and connection pooling disabled. *)
Lemma connection_list_without_shards_witness :
  exists h w' sh,
    _get_deployment_args (pod_at "enc") 0%nat (world_of enc_unsharded registry_up) =
      (inr (ParsedArgs.mk (Some h) []), w')
    /\ (snapshot h w').1 = inr sh
    /\ Namespace.connection_list sh = Some "}".
Proof.
  apply (connection_list_without_shards (pod_at "enc") 0%nat
           (world_of enc_unsharded registry_up) (spec_of enc_unsharded)).
  - reflexivity.
  - simpl. discriminate.
  - reflexivity.
  - simpl. lia.
Defined.

(** The Pod ["enc"] with two shards, three replicas and a filter before. *)
Lemma head_argument_set_witness :
  exists h cs w' sh,
    _get_deployment_args (pod_at "enc") 0%nat (world_of enc_filtered registry_up) =
      (inr (ParsedArgs.mk (Some h) cs), w')
    /\ (snapshot h w').1 = inr sh
    /\ Namespace.replicas sh = Some 1
    /\ Namespace.runtime_cls sh = Some "HeadRuntime"
    /\ Namespace.pea_role sh = Some HEAD
    /\ Namespace.port_in sh = Some K8S_PORT_IN
    /\ Namespace.uses_before_address sh =
         (if is_set (Namespace.uses_before (spec_of enc_filtered))
          then Some ("127.0.0.1:" +:+ str K8S_PORT_USES_BEFORE)
          else Namespace.uses_before_address (spec_of enc_filtered))
    /\ Namespace.uses_after_address sh =
         (if is_set (Namespace.uses_after (spec_of enc_filtered))
          then Some ("127.0.0.1:" +:+ str K8S_PORT_USES_AFTER)
          else Namespace.uses_after_address (spec_of enc_filtered))
    /\ Namespace.uses sh = Namespace.uses (spec_of enc_filtered)
    /\ Namespace.uses_before sh = Namespace.uses_before (spec_of enc_filtered)
    /\ Namespace.uses_after sh = Namespace.uses_after (spec_of enc_filtered)
    /\ Namespace.uses_with sh = Namespace.uses_with (spec_of enc_filtered)
    /\ Namespace.env sh = Namespace.env (spec_of enc_filtered)
    /\ Namespace.shard_id sh = Namespace.shard_id (spec_of enc_filtered).
Proof.
  apply (head_argument_set (pod_at "enc") 0%nat (world_of enc_filtered registry_up)
           (spec_of enc_filtered)).
  - reflexivity.
  - simpl. discriminate.
Defined.

(** Its parameters are the dictionary at location 1. *)
Lemma head_shares_dictionaries_witness :
  exists h cs w' a ah,
    _get_deployment_args (pod_at "enc") 0%nat (world_of enc_filtered registry_up) =
      (inr (ParsedArgs.mk (Some h) cs), w')
    /\ h <> 0%nat
    /\ (attrs 0%nat w').1 = inr a
    /\ (attrs h w').1 = inr ah
    /\ Namespace.uses_with ah = Namespace.uses_with a
    /\ Namespace.env ah = Namespace.env a
    /\ forall l d,
         Namespace.uses_with a = Some l ->
         (exists sh,
            (snapshot h (write l (ODict d) w').2).1 = inr sh
            /\ Namespace.uses_with sh = Some d)
         /\ forall c,
              c ∈ cs ->
              (snapshot c (write l (ODict d) w').2).1 = (snapshot c w').1.
Proof.
  apply (head_shares_dictionaries (pod_at "enc") 0%nat (world_of enc_filtered registry_up)
           (spec_of enc_filtered)).
  - reflexivity.
  - simpl. discriminate.
Defined.

Lemma head_deployment_descriptor_witness :
  exists h w',
    head_deployment (pod_at "enc") (world_of enc_filtered registry_up) =
      (inr (Some (K8sDeployment.mk
                    (PodConfig.name (pod_at "enc") +:+ "-head")
                    (to_dns_name (PodConfig.name (pod_at "enc") +:+ "-head"))
                    K8S_PORT_IN
                    (if existsb (String.eqb __version__) ["2.5.0"; "2.6.0"; "master"]
                     then __version__ else "master")
                    "head" (PodConfig.name (pod_at "enc")) None
                    (PodConfig.args (pod_at "enc"))
                    (Some h) 1 None)),
       w')
    /\ calls w' = S (calls (world_of enc_filtered registry_up))
    /\ (length (heap (world_of enc_filtered registry_up)) <= h)%nat
    /\ (snapshot h w').1 = inr (head_of (pod_at "enc") (spec_of enc_filtered)).
Proof.
  apply (head_deployment_descriptor (pod_at "enc") (world_of enc_filtered registry_up)
           (spec_of enc_filtered) ["2.5.0"; "2.6.0"; "master"]).
  - reflexivity.
  - simpl. discriminate.
  - reflexivity.
Defined.

Lemma worker_deployments_descriptors_witness :
  exists ds w',
    worker_deployments (pod_at "enc") (world_of enc_filtered registry_up) = (inr ds, w')
    /\ length ds = shard_count (spec_of enc_filtered)
    /\ forall q d,
         ds !! q = Some d ->
         K8sDeployment.shard_id d = Some (Z.of_nat q)
         /\ K8sDeployment.pea_type d = "worker"
         /\ K8sDeployment.jina_pod_name d = PodConfig.name (pod_at "enc")
         /\ K8sDeployment.dns_name d = to_dns_name (K8sDeployment.name d)
         /\ K8sDeployment.common_args d = PodConfig.args (pod_at "enc")
         /\ exists c,
              K8sDeployment.deployment_args d = Some c
              /\ c <> PodConfig.args (pod_at "enc")
              /\ (snapshot c w').1 = inr (worker_of (spec_of enc_filtered) (Z.of_nat q)).
Proof.
  apply (worker_deployments_descriptors (pod_at "enc") (world_of enc_filtered registry_up)
           (spec_of enc_filtered)).
  - reflexivity.
  - simpl. discriminate.
  - intros q _. eexists. reflexivity.
Defined.

Lemma filters_run_beside_the_head_witness :
  exists kw rest w',
    to_k8s_yaml (pod_at "enc") "ns" None (world_of enc_filtered registry_up) =
      (inr ((PodConfig.name (pod_at "enc") +:+ "-head",
             get_deployment_yamls
               (to_dns_name (PodConfig.name (pod_at "enc") +:+ "-head")) kw)
            :: rest),
       w')
    /\ kwarg_of "replicas" kw = Some (KInt 1)
    /\ kwarg_of "shard_id" kw = Some KNone
    /\ kwarg_of "pea_type" kw = Some (KStr "head")
    /\ kwarg_of "jina_pod_name" kw = Some (KStr (PodConfig.name (pod_at "enc")))
    /\ kwarg_of "image_name_uses_before" kw =
         Some (if is_set (Namespace.uses_before (spec_of enc_filtered))
               then KStr (image_name_of
                            (version_at (world_of enc_filtered registry_up)
                               (calls (world_of enc_filtered registry_up)))
                            (JINA_K8S_USE_TEST_PIP (world_of enc_filtered registry_up))
                            (default "" (Namespace.uses_before (spec_of enc_filtered))))
               else KNone)
    /\ kwarg_of "image_name_uses_after" kw =
         Some (if is_set (Namespace.uses_after (spec_of enc_filtered))
               then KStr (image_name_of
                            (version_at (world_of enc_filtered registry_up)
                               (calls (world_of enc_filtered registry_up)))
                            (JINA_K8S_USE_TEST_PIP (world_of enc_filtered registry_up))
                            (default "" (Namespace.uses_after (spec_of enc_filtered))))
               else KNone)
    /\ (kwarg_of "container_args_uses_before" kw = Some KNone
        <-> is_set (Namespace.uses_before (spec_of enc_filtered)) = false)
    /\ (kwarg_of "container_args_uses_after" kw = Some KNone
        <-> is_set (Namespace.uses_after (spec_of enc_filtered)) = false).
Proof.
  apply (filters_run_beside_the_head (pod_at "enc") "ns" None
           (world_of enc_filtered registry_up) (spec_of enc_filtered)).
  - reflexivity.
  - simpl. discriminate.
  - simpl. discriminate.
  - intros q _. eexists. reflexivity.
Defined.

Lemma workers_run_no_filter_witness :
  exists hd ws w',
    to_k8s_yaml (pod_at "enc") "ns" None (world_of enc_filtered registry_up) =
      (inr (hd :: ws), w')
    /\ length ws = shard_count (spec_of enc_filtered)
    /\ forall q y,
         ws !! q = Some y ->
         exists kw,
           y.2 = get_deployment_yamls (to_dns_name y.1) kw
           /\ kwarg_of "replicas" kw =
                Some (KInt (default 1 (Namespace.replicas (spec_of enc_filtered))))
           /\ kwarg_of "shard_id" kw = Some (KInt (Z.of_nat q))
           /\ kwarg_of "pea_type" kw = Some (KStr "worker")
           /\ kwarg_of "jina_pod_name" kw = Some (KStr (PodConfig.name (pod_at "enc")))
           /\ kwarg_of "image_name_uses_before" kw = Some KNone
           /\ kwarg_of "image_name_uses_after" kw = Some KNone
           /\ kwarg_of "container_args_uses_before" kw = Some KNone
           /\ kwarg_of "container_args_uses_after" kw = Some KNone.
Proof.
  apply (workers_run_no_filter (pod_at "enc") "ns" None (world_of enc_filtered registry_up)
           (spec_of enc_filtered)).
  - reflexivity.
  - simpl. discriminate.
  - simpl. discriminate.
  - intros q _. eexists. reflexivity.
Defined.

Lemma units_have_distinct_names_witness :
  exists out w',
    to_k8s_yaml (pod_at "enc") "ns" None (world_of enc_filtered registry_up) = (inr out, w')
    /\ NoDup (map fst out).
Proof.
  apply (units_have_distinct_names (pod_at "enc") "ns" None
           (world_of enc_filtered registry_up) (spec_of enc_filtered)).
  - reflexivity.
  - simpl. discriminate.
  - simpl. discriminate.
  - intros q _. eexists. reflexivity.
Defined.

(** The same Pod with the test flag set, before a registry that lists the
    running version and before one that does not. *)
Lemma test_pip_ignores_the_registry_witness :
  (to_k8s_yaml (pod_at "enc") "ns" None (world_test_pip enc_filtered registry_up)).1 =
    (to_k8s_yaml (pod_at "enc") "ns" None (world_test_pip enc_filtered registry_stale)).1.
Proof.
  apply (test_pip_ignores_the_registry (pod_at "enc") "ns" None
           (world_test_pip enc_filtered registry_up)
           (world_test_pip enc_filtered registry_stale) (spec_of enc_filtered)).
  - reflexivity.
  - reflexivity.
  - reflexivity.
  - reflexivity.
  - intros q _. eexists. reflexivity.
  - intros q _. eexists. reflexivity.
Defined.

(** The Pod ["enc"] with three shards, before a registry whose second answer
    is an error: the request for the head succeeds, the one for the first
    worker fails. *)
Lemma any_lookup_failure_is_raised_witness :
  exists w',
    to_k8s_yaml (pod_at "enc") "ns" None (world_of enc_unpooled registry_flaky) =
      (inl (RequestError "timed out"), w')
    /\ calls w' = (calls (world_of enc_unpooled registry_flaky) + 2)%nat.
Proof.
  apply (any_lookup_failure_is_raised (pod_at "enc") "ns" None
           (world_of enc_unpooled registry_flaky) (spec_of enc_unpooled) 1
           (RequestError "timed out")).
  - reflexivity.
  - simpl. discriminate.
  - simpl. discriminate.
  - vm_compute. lia.
  - intros q Hq. destruct q; [eexists; reflexivity | lia].
  - reflexivity.
Defined.

(** The same Pod, with connection pooling disabled. *)
Lemma connection_list_names_the_workers_witness :
  exists h cs w1 sh ds w2,
    _get_deployment_args (pod_at "enc") (PodConfig.args (pod_at "enc"))
      (world_of enc_unpooled registry_up) =
      (inr (ParsedArgs.mk (Some h) cs), w1)
    /\ (snapshot h w1).1 = inr sh
    /\ worker_deployments (pod_at "enc") (world_of enc_unpooled registry_up) = (inr ds, w2)
    /\ Namespace.connection_list sh =
         Some ("{" +:+ String.concat ","
                 (map (fun d =>
                         quoted (str (default 0 (K8sDeployment.shard_id d))) +:+ ": "
                         +:+ quoted (K8sDeployment.name d +:+ "."
                                     +:+ str_bound_method "PodConfig.k8s_namespace"
                                           (pod_at "enc")
                                     +:+ ".svc:"
                                     +:+ str (K8sDeployment.head_port_in d)))
                    ds)
               +:+ "}").
Proof.
  apply (connection_list_names_the_workers (pod_at "enc") (world_of enc_unpooled registry_up)
           (spec_of enc_unpooled) 3).
  - reflexivity.
  - simpl. discriminate.
  - reflexivity.
  - reflexivity.
  - lia.
  - intros q _. eexists. reflexivity.
Defined.
